(** * A shallow embedding of [tagger/tagger.py] (djromero/tagger)

    The Python module extracts ranked tags from a text: [Reader] tokenises,
    [Stemmer] assigns stems, [Rater] rates single tags, builds multitags
    (n-grams), clusters them by stem, prunes redundant ones and sorts the
    survivors, and [Tagger] composes the three.

    Modelling conventions.
    - Python [str] is modelled as a list of ASCII characters ([str] below);
      texts are ASCII, so the U+2019 apostrophe of [Reader.match_apostrophes]
      lies outside the modelled alphabet, and [\w] is [[A-Za-z0-9_]].
    - Python floats (ratings, weights) are modelled as real numbers [R];
      ratings are non-negative since weights lie in [0,1].
    - A ratio of two Python [int]s ([cnt / term_count[s]],
      [proper[t] / cnt]) is modelled as the exact rational; the comparisons
      the code makes against [1.0] and [0.5] agree with the double-precision
      result for counts below 2^53.
    - Division raises [ZeroDivisionError] exactly when the [int] divisor is
      0; fallible code returns [option] ([None] = the exception). *)

From Stdlib Require Import Reals Lra Lia QArith Ascii Sorting.Permutation Sorting.Sorted.
From Stdlib Require Strings.String.
From stdpp Require Import base list gmap strings.

Open Scope nat_scope.

(* ------------------------------------------------------------------ *)
(** ** Python strings *)

Definition str := list ascii.

Definition str_eqb (a b : str) : bool := bool_decide (a = b).

(** [' '.join(ws)] *)
Fixpoint join_space (ws : list str) : str :=
  match ws with
  | [] => []
  | [w] => w
  | w :: ws' => w ++ [" "%char] ++ join_space ws'
  end.

(** [sep.join(ws)] for a one-character separator [sep]. *)
Fixpoint join_with (sep : ascii) (ws : list str) : str :=
  match ws with
  | [] => []
  | [w] => w
  | w :: ws' => w ++ [sep] ++ join_with sep ws'
  end.

(** ASCII characters for which [str.isspace()] holds: space, \t \n \v \f
    \r and the separators \x1c..\x1f. *)
Definition is_space (c : ascii) : bool :=
  let n := nat_of_ascii c in
  (n =? 32) || ((9 <=? n) && (n <=? 13)) || ((28 <=? n) && (n <=? 31)).

(** All maximal non-empty runs of characters satisfying [p], in order:
    [re.findall('[...]+', s)] for a character class [p]. *)
Fixpoint findall (p : ascii -> bool) (s : str) : list str :=
  match s with
  | [] => []
  | c :: s' =>
      let ws := findall p s' in
      if p c then
        match s' with
        | d :: _ =>
            if p d then
              match ws with
              | w :: ws' => (c :: w) :: ws'
              | [] => [[c]]
              end
            else [c] :: ws
        | [] => [[c]]
        end
      else ws
  end.

(** [s.split()] without arguments: the maximal runs of non-whitespace. *)
Definition py_split (s : str) : list str := findall (fun c => negb (is_space c)) s.

(** [re.split('[...]+', s)] for a separator class [p]: the pieces between
    maximal runs of separators, with empty pieces at the ends. *)
Fixpoint re_split (p : ascii -> bool) (s : str) : list str :=
  match s with
  | [] => [[]]
  | c :: s' =>
      let r := re_split p s' in
      if p c then
        match s' with
        | d :: _ => if p d then r else [] :: r
        | [] => [] :: r
        end
      else
        match r with
        | w :: r' => (c :: w) :: r'
        | [] => [[c]]
        end
  end.

(** Python's [x or y] on strings: the empty string is falsy. *)
Definition str_or (x y : str) : str :=
  match x with [] => y | _ => x end.

(* ------------------------------------------------------------------ *)
(** ** Floats *)

Open Scope R_scope.

Definition Reqb (x y : R) : bool := if Req_EM_T x y then true else false.
Definition Rltb (x y : R) : bool := if Rlt_dec x y then true else false.

(** [x ** y] for [y > 0] on a non-negative base: [0.0 ** y = 0.0]. *)
Definition py_pow (x y : R) : R := if Req_EM_T x 0 then 0 else Rpower x y.

(** [reduce(lambda x, y: x * y, rs, 1.0)] *)
Definition reduce_mul (rs : list R) : R := fold_left Rmult rs 1.

(** [a / n] for a float [a] and an [int] [n]. *)
Definition py_div_int (a : R) (n : nat) : option R :=
  if (n =? 0)%nat then None else Some (a / INR n).

Close Scope R_scope.

(** [a / b] for [int]s [a] and [b] (true division). *)
Definition py_div_nat (a b : nat) : option Q :=
  if b =? 0 then None else Some (Z.of_nat a # Pos.of_nat b).

(* ------------------------------------------------------------------ *)
(** ** [class Tag] *)

Record Tag := mkTag {
  string : str;
  stem : str;
  rating : R;
  proper : bool;
  terminal : bool
}.

(** [Tag(string, stem=None, rating=1.0, proper=False, terminal=False)]:
    [self.stem = stem or string]. *)
Definition new_tag (string0 : str) (stem0 : option str) (rating0 : R)
    (proper0 terminal0 : bool) : Tag :=
  {| string := string0;
     stem := match stem0 with Some s => str_or s string0 | None => string0 end;
     rating := rating0; proper := proper0; terminal := terminal0 |}.

Definition set_rating (r : R) (t : Tag) : Tag :=
  {| string := string t; stem := stem t; rating := r;
     proper := proper t; terminal := terminal t |}.

Definition set_stem (s : str) (t : Tag) : Tag :=
  {| string := string t; stem := s; rating := rating t;
     proper := proper t; terminal := terminal t |}.

(** [Tag.__lt__]: [self.rating > other.rating]. *)
Definition tag_lt (a b : Tag) : bool := Rltb (rating b) (rating a).

(* ------------------------------------------------------------------ *)
(** ** [class MultiTag(Tag)] *)

Record MultiTag := mkMultiTag {
  base : Tag;          (** the inherited [Tag] attributes *)
  size : nat;
  subratings : list R
}.

(** [MultiTag.combined_rating] *)
Definition combined_rating (m : MultiTag) : R :=
  let product := reduce_mul (subratings m) in
  let root := size m in
  if Reqb product 0 && proper (base m) then
    let nonzero := List.filter (fun r => Rltb 0 r) (subratings m) in
    if length nonzero =? 0 then 0%R
    else py_pow (reduce_mul nonzero) (1 / INR (length nonzero))
  else py_pow product (1 / INR root).

(** [MultiTag(tail)] (no head): copy the tail through [Tag.__init__]. *)
Definition multitag_unit (tail : Tag) : MultiTag :=
  let t := new_tag (string tail) (Some (stem tail)) (rating tail)
             (proper tail) (terminal tail) in
  {| base := t; size := 1; subratings := [rating t] |}.

(** [MultiTag(tail, head)]: the attributes are set one by one and
    [self.rating] last, from [combined_rating], which does not read it. *)
Definition multitag_extend (tail : Tag) (head : MultiTag) : MultiTag :=
  let m0 := {| base := {| string := join_space [string (base head); string tail];
                          stem := join_space [stem (base head); stem tail];
                          rating := 0%R;
                          proper := proper (base head) && proper tail;
                          terminal := terminal tail |};
               size := S (size head);
               subratings := subratings head ++ [rating tail] |} in
  {| base := set_rating (combined_rating m0) (base m0);
     size := size m0; subratings := subratings m0 |}.

Definition default_tag : Tag := new_tag [] None 1%R false false.

(** A multitag obtained by extending a chain [u1 .. un] of unit tags:
    [MultiTag(un, ... MultiTag(u2, MultiTag(u1)))]. *)
Definition build_chain (l : list Tag) : MultiTag :=
  match l with
  | [] => multitag_unit default_tag
  | u :: us => fold_left (fun m x => multitag_extend x m) us (multitag_unit u)
  end.

(* ------------------------------------------------------------------ *)
(** ** [class Reader] *)

Definition char_in (codes : list nat) (c : ascii) : bool :=
  existsb (Nat.eqb (nat_of_ascii c)) codes.

(** [\w] on ASCII: [[A-Za-z0-9_]]. *)
Definition is_word (c : ascii) : bool :=
  let n := nat_of_ascii c in
  ((97 <=? n) && (n <=? 122)) || ((65 <=? n) && (n <=? 90))
  || ((48 <=? n) && (n <=? 57)) || (n =? 95).

Definition is_upper (c : ascii) : bool :=
  let n := nat_of_ascii c in (65 <=? n) && (n <=? 90).

(** [match_paragraphs = '[\.\?!\t\n\r\f\v]+'] *)
Definition is_paragraph_sep : ascii -> bool := char_in [46; 63; 33; 9; 10; 13; 12; 11].

(** [match_phrases = '[,;:\(\)\[\]\{\}<>]+'] *)
Definition is_phrase_sep : ascii -> bool :=
  char_in [44; 59; 58; 40; 41; 91; 93; 123; 125; 60; 62].

(** [match_words = '[\w\-\'_/&]+'] *)
Definition is_word_char (c : ascii) : bool :=
  is_word c || char_in [45; 39; 95; 47; 38] c.

(** [Reader.preprocess]: [match_apostrophes.sub("'", text)], on ASCII the
    backquote. *)
Definition reader_preprocess (text : str) : str :=
  map (fun c => if Nat.eqb (nat_of_ascii c) 96 then "'"%char else c) text.

(** [str.lower()] on ASCII. *)
Definition lower (w : str) : str :=
  map (fun c => if is_upper c then ascii_of_nat (nat_of_ascii c + 32) else c) w.

(** The maximal prefix of [\w] characters and the rest. *)
Fixpoint word_prefix (w : str) : str * str :=
  match w with
  | [] => ([], [])
  | c :: w' =>
      if is_word c then let '(p, r) := word_prefix w' in (c :: p, r)
      else ([], w)
  end.

(** [Reader.clean_word]: lowercase, then
    [match_contractions = '(\w+)\'(m|re|d|ve|s|ll|t)?'] anchored at the
    start; the greedy [\w+] is the maximal word prefix (backtracking cannot
    help, the next character would be a [\w] one), and the optional group
    always matches, so a match keeps [group(1)]. *)
Definition clean_word (word : str) : str :=
  let word := lower word in
  match word_prefix word with
  | ((_ :: _) as g1, c :: _) => if Nat.eqb (nat_of_ascii c) 39 then g1 else word
  | _ => word
  end.

(** [w[0].isupper()] *)
Definition first_upper (w : str) : bool :=
  match w with c :: _ => is_upper c | [] => false end.

(** [Tag(self.clean_word(w), proper=..., terminal=...)] *)
Definition word_tag (w : str) (proper0 terminal0 : bool) : Tag :=
  new_tag (clean_word w) None 1%R proper0 terminal0.

(** The first phrase of a paragraph. *)
Definition reader_first_phrase (words : list str) : list Tag :=
  if 1 <? length words then
    [new_tag (clean_word (hd [] words)) None 1%R false false]
    ++ map (fun w => word_tag w (first_upper w) false) (removelast (tl words))
    ++ [word_tag (List.last words []) (first_upper (List.last words [])) true]
  else if length words =? 1 then
    [new_tag (clean_word (hd [] words)) None 1%R false true]
  else [].

(** The following phrases of a paragraph. *)
Definition reader_next_phrase (words : list str) : list Tag :=
  (if 1 <? length words then
     map (fun w => word_tag w (first_upper w) false) (removelast words)
   else [])
  ++ (if 0 <? length words then
        [word_tag (List.last words []) (first_upper (List.last words [])) true]
      else []).

Definition reader_paragraph (par : str) : list Tag :=
  let phrases := re_split is_phrase_sep par in
  match phrases with
  | phr0 :: rest =>
      reader_first_phrase (findall is_word_char phr0)
      ++ flat_map (fun phr => reader_next_phrase (findall is_word_char phr)) rest
  | [] => []
  end.

(** [Reader.__call__] *)
Definition reader_call (text : str) : list Tag :=
  let text := reader_preprocess text in
  flat_map reader_paragraph (re_split is_paragraph_sep text).

(* ------------------------------------------------------------------ *)
(** ** [class Stemmer] *)

Definition word_at (c : option ascii) : bool :=
  match c with Some c => is_word c | None => false end.

(** [Stemmer.preprocess]: [match_hyphens.sub('', string)] with
    [match_hyphens = '\b[\-_]\b']; word boundaries are read on the
    original string. *)
Fixpoint strip_hyphens (prev : option ascii) (s : str) : str :=
  match s with
  | [] => []
  | c :: s' =>
      let hit := char_in [45; 95] c
                 && xorb (word_at prev) (is_word c)
                 && xorb (is_word c) (word_at (head s')) in
      (if hit then [] else [c]) ++ strip_hyphens (Some c) s'
  end.

Definition stemmer_preprocess (s : str) : str := strip_hyphens None s.

(** [Stemmer.__call__] with the external stemming function [stem_fn]. *)
Definition stemmer_call (stem_fn : str -> str) (t : Tag) : Tag :=
  set_stem (stem_fn (stemmer_preprocess (string t))) t.

(* ------------------------------------------------------------------ *)
(** ** [class Rater] *)

Record Rater := mkRater {
  weights : gmap str R;
  multitag_size : Z
}.

(** [Rater(weights, multitag_size=3)]: the constructor stores its
    arguments. *)
Definition rater_new (weights0 : gmap str R) (multitag_size0 : Z) : Rater :=
  {| weights := weights0; multitag_size := multitag_size0 |}.

(** [Counter(tags)[t]]: tags are equal when their stems are. *)
Definition count_stem (s : str) (tags : list Tag) : nat :=
  length (List.filter (fun x => str_eqb (stem x) s) tags).

(** [Rater.rate_tags]: each tag gets
    [1.0 * term_count[t] / len(tags) * self.weights.get(t.stem, 1.0)]. *)
Definition rate_tags (r : Rater) (tags : list Tag) : option (list Tag) :=
  mapM (fun t =>
          tf ← py_div_int (1 * INR (count_stem (stem t) tags))%R (length tags);
          Some (set_rating (tf * default 1%R (weights r !! stem t))%R t))
       tags.

(** [range(1, n)] *)
Definition py_range_from1 (n : Z) : list nat := seq 1 (Z.to_nat (n - 1)).

(** The inner loop of [Rater.create_multitags] for start position [i]. *)
Fixpoint extend_chain (tags : list Tag) (i : nat) (t : MultiTag) (js : list nat)
    : list MultiTag :=
  match js with
  | [] => []
  | j :: js' =>
      if terminal (base t) || (length tags <=? i + j) then []
      else
        let t' := multitag_extend (nth (i + j) tags default_tag) t in
        t' :: extend_chain tags i t' js'
  end.

(** [Rater.create_multitags] *)
Definition create_multitags (r : Rater) (tags : list Tag) : list MultiTag :=
  flat_map (fun i =>
              let t := multitag_unit (nth i tags default_tag) in
              t :: extend_chain tags i t (py_range_from1 (multitag_size r)))
           (seq 0 (length tags)).

Definition mstem (m : MultiTag) : str := stem (base m).

(** [Counter(multitags)]: an insertion-ordered dict whose key is the first
    multitag of each stem. *)
Fixpoint counter_add (m : MultiTag) (c : list (MultiTag * nat))
    : list (MultiTag * nat) :=
  match c with
  | [] => [(m, 1)]
  | (k, n) :: c' =>
      if str_eqb (mstem k) (mstem m) then (k, S n) :: c'
      else (k, n) :: counter_add m c'
  end.

Definition term_count_of (ms : list MultiTag) : list (MultiTag * nat) :=
  fold_left (fun c m => counter_add m c) ms [].

(** [term_count[s]]: 0 for a missing key ([Counter.__missing__]). *)
Definition count_of (tc : list (MultiTag * nat)) (s : str) : nat :=
  match List.find (fun kn => str_eqb (mstem (fst kn)) s) tc with
  | Some (_, n) => n
  | None => 0
  end.

(** A [Counter] of strings, insertion ordered. *)
Fixpoint str_counter_add (s : str) (c : list (str * nat)) : list (str * nat) :=
  match c with
  | [] => [(s, 1)]
  | (k, n) :: c' => if str_eqb k s then (k, S n) :: c' else (k, n) :: str_counter_add s c'
  end.

(** [clusters = defaultdict(Counter)], keyed by stem. *)
Fixpoint clusters_add (key s : str) (cl : list (str * list (str * nat)))
    : list (str * list (str * nat)) :=
  match cl with
  | [] => [(key, [(s, 1)])]
  | (k, c) :: cl' =>
      if str_eqb k key then (k, str_counter_add s c) :: cl'
      else (k, c) :: clusters_add key s cl'
  end.

Definition clusters_of (ms : list MultiTag) : list (str * list (str * nat)) :=
  fold_left (fun cl m => clusters_add (mstem m) (string (base m)) cl) ms [].

Definition cluster_lookup (cl : list (str * list (str * nat))) (key : str)
    : list (str * nat) :=
  match List.find (fun kc => str_eqb (fst kc) key) cl with
  | Some (_, c) => c
  | None => []
  end.

(** [c.most_common(1)[0][0]]: [max] over the items by count, which keeps
    the first of equally frequent strings. (Every key of [term_count] has
    a non-empty cluster, so the empty case does not arise.) *)
Definition most_common (c : list (str * nat)) : str :=
  match c with
  | [] => []
  | sn :: c' =>
      fst (fold_left (fun best sn' => if snd best <? snd sn' then sn' else best) c' sn)
  end.

(** [proper[t]]: the number of proper occurrences of the stem. *)
Definition proper_count (ms : list MultiTag) (s : str) : nat :=
  length (List.filter (fun m => proper (base m) && str_eqb (mstem m) s) ms).

(** [ratings[t]]: [max(ratings[t], t.rating)] over the proper occurrences,
    from the [defaultdict(float)] default [0.0]. *)
Definition ratings_max (ms : list MultiTag) (s : str) : R :=
  fold_left (fun acc m => if proper (base m) && str_eqb (mstem m) s
                          then Rmax acc (rating (base m)) else acc) ms 0%R.

Definition set_base (t : Tag) (m : MultiTag) : MultiTag :=
  {| base := t; size := size m; subratings := subratings m |}.

(** The loop [for t, cnt in term_count.items()] that picks the most common
    string and the proper flag of each cluster (it updates the key objects
    of [term_count] in place). *)
Definition canonicalize (ms : list MultiTag) (tc : list (MultiTag * nat))
    : option (list (MultiTag * nat)) :=
  let cl := clusters_of ms in
  mapM (fun tcnt =>
          let '(t, cnt) := tcnt in
          let b := base t in
          let b1 := {| string := most_common (cluster_lookup cl (mstem t));
                       stem := stem b; rating := rating b;
                       proper := proper b; terminal := terminal b |} in
          proper_freq ← py_div_nat (proper_count ms (mstem t)) cnt;
          if Qle_bool (1 # 2) proper_freq then
            Some (set_base {| string := string b1; stem := stem b1;
                              rating := ratings_max ms (mstem t);
                              proper := true; terminal := terminal b1 |} t, cnt)
          else Some (set_base b1 t, cnt))
       tc.

(** [set(t for t in term_count if len(t.string) > 1 and t.rating > 0.0)],
    listed in [term_count] order. *)
Definition base_filter (tc : list (MultiTag * nat)) : list MultiTag :=
  map fst (List.filter (fun tcnt => (1 <? length (string (base (fst tcnt))))
                               && Rltb 0 (rating (base (fst tcnt)))) tc).

Fixpoint foldM {A B} (f : A -> B -> option A) (a : A) (l : list B) : option A :=
  match l with
  | [] => Some a
  | x :: l' => a' ← f a x; foldM f a' l'
  end.

(** The pairs [(l, i)] of [for l in range(1, len(words))] and
    [for i in range(len(words) - l + 1)]. *)
Definition spans (n : nat) : list (nat * nat) :=
  flat_map (fun l => map (fun i => (l, i)) (seq 0 (n - l + 1))) (seq 1 (n - 1)).

(** [words[i:i + l]] *)
Definition sublist (i l : nat) (words : list str) : list str :=
  firstn l (skipn i words).

(** One step of the redundancy loop: the stems discarded so far are
    accumulated ([unique_tags.discard] removes the element of equal stem). *)
Definition prune_span (tc : list (MultiTag * nat)) (t : MultiTag) (cnt : nat)
    (words : list str) (disc : list str) (li : nat * nat) : option (list str) :=
  let '(l, i) := li in
  let s := new_tag (join_space (sublist i l words)) None 1%R false false in
  relative_freq ← py_div_nat cnt (count_of tc (stem s));
  Some (if (Qeq_bool relative_freq 1 && proper (base t))
           || (Qle_bool (1 # 2) relative_freq && Rltb 0 (rating (base t)))
        then stem s :: disc
        else mstem t :: disc).

(** [# remove redundant tags] *)
Definition prune (tc : list (MultiTag * nat)) : option (list str) :=
  foldM (fun disc tcnt =>
           let '(t, cnt) := tcnt in
           let words := py_split (mstem t) in
           foldM (prune_span tc t cnt words) disc (spans (length words)))
        [] tc.

(** [sorted(...)] with [Tag.__lt__]: a stable sort (for a strict weak
    order every stable sort gives the same list). *)
Fixpoint insert_sorted (x : MultiTag) (l : list MultiTag) : list MultiTag :=
  match l with
  | [] => [x]
  | y :: l' => if tag_lt (base x) (base y) then x :: l else y :: insert_sorted x l'
  end.

Definition py_sorted (l : list MultiTag) : list MultiTag :=
  fold_left (fun acc x => insert_sorted x acc) l [].

Definition discarded (disc : list str) (t : MultiTag) : bool :=
  existsb (str_eqb (mstem t)) disc.

(** [Rater.__call__]. [set_order] is the iteration order of the Python
    set [unique_tags], given the elements in insertion order; it depends on
    the string hashes of the running interpreter. *)
Definition rater_call (set_order : list MultiTag -> list MultiTag) (r : Rater)
    (tags : list Tag) : option (list MultiTag) :=
  tags ← rate_tags r tags;
  let multitags := create_multitags r tags in
  term_count ← canonicalize multitags (term_count_of multitags);
  let unique_tags := base_filter term_count in
  disc ← prune term_count;
  Some (py_sorted (List.filter (fun t => negb (discarded disc t)) (set_order unique_tags))).

(** The iteration order of a CPython set built by successive insertions
    while its table has 8 slots (at most four elements): an element goes to
    slot [hash & 7], or along [i = (5 * i + 1 + perturb) & 7] with
    [perturb >>= 5] while that slot is taken; iteration follows the slots.
    Discarding an element leaves a dummy and moves no other element. *)
Fixpoint probe_slot (fuel : nat) (used : list Z) (i perturb : Z) : Z :=
  match fuel with
  | O => i
  | S fuel' =>
      if existsb (Z.eqb i) used then
        let perturb' := Z.shiftr perturb 5 in
        probe_slot fuel' used (Z.land (5 * i + 1 + perturb') 7) perturb'
      else i
  end%Z.

Fixpoint place_all (hash : str -> Z) (placed : list (Z * MultiTag))
    (l : list MultiTag) : list (Z * MultiTag) :=
  match l with
  | [] => placed
  | m :: l' =>
      let h := (hash (mstem m) mod 2 ^ 64)%Z in
      let i := probe_slot 64 (map fst placed) (Z.land h 7) h in
      place_all hash (placed ++ [(i, m)]) l'
  end.

Definition small_set_order (hash : str -> Z) (l : list MultiTag) : list MultiTag :=
  let placed := place_all hash [] l in
  flat_map (fun k => map snd (List.filter (fun im => Z.eqb (fst im) (Z.of_nat k)) placed))
           (seq 0 8).

(* ------------------------------------------------------------------ *)
(** ** [class Tagger] *)

(** [l[:n]] *)
Definition py_slice_to {A} (l : list A) (n : Z) : list A :=
  if (0 <=? n)%Z then firstn (Z.to_nat n) l
  else firstn (Z.to_nat (Z.of_nat (length l) + n)) l.

(** [Tagger.__call__] with the default [Reader], a [Stemmer] wrapping
    [stem_fn], and a [Rater]. *)
Definition tagger_call (set_order : list MultiTag -> list MultiTag)
    (stem_fn : str -> str) (r : Rater) (text : str) (tags_number : Z)
    : option (list MultiTag) :=
  let tags := reader_call text in
  let tags := map (stemmer_call stem_fn) tags in
  tags ← rater_call set_order r tags;
  Some (py_slice_to tags tags_number).

(* ------------------------------------------------------------------ *)
(** ** [extras.py]: [SimpleReader] and [NaiveRater] *)


(** [set.add] on tags: an element equal (same stem) to one already in the
    set is not added. *)
Fixpoint tag_set_add (t : Tag) (s : list Tag) : list Tag :=
  match s with
  | [] => [t]
  | u :: s' => if str_eqb (stem u) (stem t) then s else u :: tag_set_add t s'
  end.

(** [set(...)] built from a sequence of tags, in insertion order. *)
Definition tag_set_of (l : list Tag) : list Tag :=
  fold_left (fun s t => tag_set_add t s) l [].

(** [sorted(...)] on tags with [Tag.__lt__], as [py_sorted]. *)
Fixpoint insert_sorted_tag (x : Tag) (l : list Tag) : list Tag :=
  match l with
  | [] => [x]
  | y :: l' => if tag_lt x y then x :: l else y :: insert_sorted_tag x l'
  end.

Definition py_sorted_tags (l : list Tag) : list Tag :=
  fold_left (fun acc x => insert_sorted_tag x acc) l [].

(** [NaiveRater.__call__]; [set_order] is the iteration order of the set
    [unique_tags], given its elements in insertion order. *)
Definition naive_rater_call (set_order : list Tag -> list Tag) (r : Rater)
    (tags : list Tag) : option (list Tag) :=
  tags ← rate_tags r tags;
  let unique_tags := tag_set_of (List.filter (fun t => (1 <? length (string t))
                                                   && Rltb 0 (rating t)) tags) in
  Some (py_sorted_tags (set_order unique_tags)).

(* ------------------------------------------------------------------ *)
(** ** [EnglishTagger] and [SpanishTagger] *)

(** The rater of [EnglishTagger.__init__] (and of [SpanishTagger.__init__],
    the same code): the given one, else, when a dictionary is given, a
    [Rater(weights, multitag_size=1)] on the weights loaded from it; else
    none. *)
Definition language_tagger_rater (rater : option Rater)
    (dictionary : option (gmap str R)) : option Rater :=
  match rater with
  | Some r => Some r
  | None =>
      match dictionary with
      | Some weights0 => Some (rater_new weights0 1)
      | None => None
      end
  end.

(* ------------------------------------------------------------------ *)
(** ** The geometric mean, as the documentation of [combined_rating]
    words it *)

Definition geometric_mean (rs : list R) : R :=
  py_pow (reduce_mul rs) (1 / INR (length rs)).

(* ------------------------------------------------------------------ *)
(** ** The tags of one phrase, uniformly: the [k]-th of [n] words gets the
    capitalisation of its first character as proper flag, except the first
    word of a paragraph's first phrase, and only the last word is
    terminal. *)

Fixpoint phrase_tags_from (first_phrase : bool) (k n : nat) (words : list str) : list Tag :=
  match words with
  | [] => []
  | w :: ws =>
      new_tag (clean_word w) None 1%R
        (if first_phrase && (k =? 0) then false else first_upper w) (k + 1 =? n)
      :: phrase_tags_from first_phrase (S k) n ws
  end.

Definition phrase_tags (first_phrase : bool) (words : list str) : list Tag :=
  phrase_tags_from first_phrase 0 (length words) words.

(* ------------------------------------------------------------------ *)
(** Non-increasing ratings: [b] may follow [a] in the output. *)
Definition rating_ge (a b : MultiTag) : Prop := (rating (base b) <= rating (base a))%R.

(** A stem that [str.split()] keeps as one word: non-empty, no whitespace. *)
Definition good_stem (t : Tag) : bool :=
  match stem t with [] => false | s => forallb (fun c => negb (is_space c)) s end.

(** Every entry of a counter has a positive count. *)
Definition counts_pos (c : list (MultiTag * nat)) : Prop :=
  Forall (fun kn => 1 <= snd kn) c.

(** ** Concrete inputs *)

Definition lit (s : String.string) : str := String.list_ascii_of_string s.

(** Two proper words rated [0.0] and [0.2]. *)
Definition new_zero : Tag := new_tag (lit "new") None 0%R true false.
Definition york_02 : Tag := new_tag (lit "york") None 0.2%R true true.

(** A tag whose stemmer returned the empty string. *)
Definition x_empty_stem : Tag := set_stem [] (new_tag (lit "x") None 1%R false false).
Definition b_tag : Tag := new_tag (lit "b") None 1%R false true.

(** A single two-letter terminal tag. *)
Definition ab_tag : Tag := new_tag (lit "ab") None 1%R false true.

(** "new york ." as stemmed tags: two mergeable words, the second terminal,
    then a third word. *)
Definition c7_tags : list Tag :=
  [new_tag (lit "new") None 1%R true false; new_tag (lit "york") None 1%R true true;
   new_tag (lit "times") None 1%R false true].

(** A blank text: space, tab, newline. *)
Definition blank_text : str := [" "%char; "009"%char; "010"%char].

(** "New York", both proper, with multitag size 2. *)
Definition c1_tags : list Tag :=
  [new_tag (lit "new") None 1%R true false; new_tag (lit "york") None 1%R true true].

Definition c1_result : list MultiTag :=
  match rater_call (fun l => l) (rater_new ∅ 2) c1_tags with Some l => l | None => [] end.

(** Two tags of equal frequency, and two string hashes that put their
    stems in the two slots of a small set table in either order. *)
Definition c4_tags : list Tag :=
  [new_tag (lit "ab") None 1%R false true; new_tag (lit "cd") None 1%R false true].

Definition c4_hash1 (s : str) : Z := if str_eqb s (lit "ab") then 1%Z else 2%Z.

Definition c4_hash2 (s : str) : Z := if str_eqb s (lit "ab") then 2%Z else 1%Z.

Definition c4_rated : list Tag := map (set_rating (1/2)%R) c4_tags.

Definition c4_ms : list MultiTag := map multitag_unit c4_rated.

Definition c4_tc : list (MultiTag * nat) := map (fun m => (m, 1)) c4_ms.

Definition c4_result (set_order : list MultiTag -> list MultiTag) : list MultiTag :=
  match rater_call set_order (rater_new ∅ 1) c4_tags with Some l => l | None => [] end.

(** A tag with an empty stem between two tags, with multitag size 4. *)
Definition c10_tags : list Tag :=
  [new_tag (lit "a") None 1%R false false; x_empty_stem;
   new_tag (lit "b") None 1%R false false; new_tag (lit "c") None 1%R false true].

Definition c10_good_tags : list Tag :=
  [new_tag (lit "a") None 1%R false false; new_tag (lit "b") None 1%R false false;
   new_tag (lit "c") None 1%R false true].

(* ================================================================== *)
(** * Properties *)

(** ** Multitags built from chains *)

Lemma join_space_snoc (l : list str) (x : str) :
  l <> [] -> join_space (l ++ [x]) = join_space l ++ [" "%char] ++ x.
Proof.
  intros Hl. induction l as [|a l IH]; [congruence|].
  destruct l as [|b l]; [reflexivity|].
  change ((a :: b :: l) ++ [x]) with (a :: b :: (l ++ [x])).
  change (join_space (a :: b :: l ++ [x]))
    with (a ++ [" "%char] ++ join_space ((b :: l) ++ [x])).
  change (join_space (a :: b :: l)) with (a ++ [" "%char] ++ join_space (b :: l)).
  rewrite IH by discriminate. rewrite <- !app_assoc. reflexivity.
Qed.

Lemma join_space_pair (a b : str) : join_space [a; b] = a ++ [" "%char] ++ b.
Proof. reflexivity. Qed.

Lemma map_snoc {A B} (f : A -> B) (l : list A) (x : A) :
  map f (l ++ [x]) = map f l ++ [f x].
Proof. rewrite map_app. reflexivity. Qed.

Lemma build_chain_snoc (l : list Tag) (x : Tag) :
  l <> [] -> build_chain (l ++ [x]) = multitag_extend x (build_chain l).
Proof.
  destruct l as [|u us]; [congruence|]. intros _.
  simpl. rewrite fold_left_app. reflexivity.
Qed.

(** [combined_rating] reads only [subratings], [size] and [proper]. *)
Lemma combined_rating_ext (m1 m2 : MultiTag) :
  subratings m1 = subratings m2 -> size m1 = size m2 ->
  proper (base m1) = proper (base m2) ->
  combined_rating m1 = combined_rating m2.
Proof. intros H1 H2 H3. unfold combined_rating. rewrite H1, H2, H3. reflexivity. Qed.

(** The attributes of a multitag built from the chain [u :: us]. *)
Lemma build_chain_fields (u : Tag) (us : list Tag) :
  let m := build_chain (u :: us) in
  string (base m) = join_space (map string (u :: us)) /\
  stem (base m) = join_space (str_or (stem u) (string u) :: map stem us) /\
  terminal (base m) = terminal (List.last (u :: us) u) /\
  proper (base m) = forallb proper (u :: us) /\
  size m = length (u :: us) /\
  subratings m = map rating (u :: us).
Proof.
  induction us as [|x us IH] using rev_ind.
  - simpl. repeat split; try reflexivity. destruct (proper u); reflexivity.
  - cbv zeta in *. destruct IH as (Hs & Hst & Ht & Hp & Hz & Hr).
    rewrite app_comm_cons, build_chain_snoc by discriminate.
    unfold multitag_extend; cbn [base size subratings set_rating string stem
      terminal proper].
    rewrite !join_space_pair, Hs, Hst, Hp, Hz, Hr, !map_snoc, forallb_app, length_app.
    repeat split.
    + rewrite join_space_snoc by (simpl; discriminate). reflexivity.
    + rewrite app_comm_cons, join_space_snoc by discriminate. reflexivity.
    + rewrite last_last. reflexivity.
    + simpl. rewrite andb_true_r. reflexivity.
    + simpl. lia.
Qed.

Lemma build_chain_rating (u : Tag) (us : list Tag) :
  us <> [] -> rating (base (build_chain (u :: us))) = combined_rating (build_chain (u :: us)).
Proof.
  intros Hus. destruct us as [|x us] using rev_ind; [congruence|].
  rewrite app_comm_cons, build_chain_snoc by discriminate.
  unfold multitag_extend at 1. cbn [base set_rating rating].
  apply combined_rating_ext; reflexivity.
Qed.

Lemma py_pow_one (r : R) : (0 <= r)%R -> py_pow r (1 / INR 1) = r.
Proof.
  intros Hr. unfold py_pow. destruct (Req_EM_T r 0) as [->|Hne]; [reflexivity|].
  replace (1 / INR 1)%R with 1%R by (simpl; field).
  apply Rpower_1. lra.
Qed.

Lemma Reqb_refl (x : R) : Reqb x x = true.
Proof. unfold Reqb. destruct (Req_EM_T x x); congruence. Qed.

Lemma Reqb_neq (x y : R) : x <> y -> Reqb x y = false.
Proof. unfold Reqb. destruct (Req_EM_T x y); congruence. Qed.

Lemma Rltb_true (x y : R) : (x < y)%R -> Rltb x y = true.
Proof. unfold Rltb. destruct (Rlt_dec x y); [reflexivity | contradiction]. Qed.

Lemma Rltb_false (x y : R) : ~ (x < y)%R -> Rltb x y = false.
Proof. unfold Rltb. destruct (Rlt_dec x y); [contradiction | reflexivity]. Qed.

Lemma fold_mul_zero (l : list R) : fold_left Rmult l 0%R = 0%R.
Proof.
  induction l as [|r l IH]; [reflexivity|].
  simpl. rewrite Rmult_0_l. exact IH.
Qed.

Lemma py_pow_zero (y : R) : py_pow 0 y = 0%R.
Proof. unfold py_pow. destruct (Req_EM_T 0 0); [reflexivity | congruence]. Qed.

(** ** C8: the attributes of a multitag built from a chain *)

(** Claim C8, as the code has it: for a multitag built by extending a chain
    of unit tags [u1 .. un], its string is the space-join of the component
    strings, its stem the space-join of the component stems where an empty
    stem of the first component is replaced by that component's string
    ([Tag.__init__] sets [stem or string]), its terminal flag is the last
    component's and its proper flag the conjunction of all components'. *)
Theorem multitag_chain_attributes (u : Tag) (us : list Tag) :
  let m := build_chain (u :: us) in
  string (base m) = join_space (map string (u :: us)) /\
  stem (base m) = join_space (str_or (stem u) (string u) :: map stem us) /\
  terminal (base m) = terminal (List.last (u :: us) u) /\
  proper (base m) = forallb proper (u :: us).
Proof.
  cbv zeta. destruct (build_chain_fields u us) as (Hs & Hst & Ht & Hp & _).
  repeat split; assumption.
Qed.

(** Claim C8 fails as stated: a first component with an empty stem and the
    string "x", followed by "b", gives the stem "x b", not " b". *)
Lemma multitag_chain_stem_counterexample :
  stem (base (build_chain [x_empty_stem; b_tag]))
  <> join_space (map stem [x_empty_stem; b_tag]).
Proof. vm_compute. discriminate. Qed.

(** [MultiTag.__init__] treats an empty stem by position: in the first
    component it is replaced by the string (through [Tag.__init__]'s
    [stem or string]), in a later component it is joined as it is. *)
Lemma multitag_chain_empty_stem_position :
  stem x_empty_stem = [] /\
  stem (base (build_chain [x_empty_stem; b_tag])) = lit "x b" /\
  stem (base (build_chain [b_tag; x_empty_stem])) = lit "b ".
Proof. vm_compute. repeat split; reflexivity. Qed.

(** ** C2: the combined rating *)

(** Claim C2: for a multitag built from components with non-negative
    ratings [r1 .. rn], its rating is [combined_rating()], which is the
    geometric mean of all the subratings unless their product is 0 and the
    tag is proper, in which case it is the geometric mean of the nonzero
    subratings; when all subratings are 0 it is 0. *)
Theorem combined_rating_geometric_mean (u : Tag) (us : list Tag)
  (Hnn : Forall (fun r => 0 <= r)%R (map rating (u :: us))) :
  let m := build_chain (u :: us) in
  let rs := map rating (u :: us) in
  rating (base m) = combined_rating m /\
  ((reduce_mul rs <> 0)%R \/ proper (base m) = false ->
     combined_rating m = geometric_mean rs) /\
  (reduce_mul rs = 0%R -> proper (base m) = true -> Exists (fun r => r <> 0)%R rs ->
     combined_rating m = geometric_mean (List.filter (fun r => negb (Reqb r 0)) rs)) /\
  (Forall (fun r => r = 0)%R rs -> combined_rating m = 0%R).
Proof.
  cbv zeta.
  destruct (build_chain_fields u us) as (_ & _ & _ & Hp & Hz & Hr).
  set (m := build_chain (u :: us)) in *.
  set (rs := map rating (u :: us)) in *.
  assert (Hcr : combined_rating m =
     if Reqb (reduce_mul rs) 0 && proper (base m) then
       (let nonzero := List.filter (fun r => Rltb 0 r) rs in
        if length nonzero =? 0 then 0%R
        else py_pow (reduce_mul nonzero) (1 / INR (length nonzero)))
     else geometric_mean rs).
  { unfold combined_rating, geometric_mean. rewrite Hr, Hz. unfold rs. rewrite length_map. reflexivity. }
  assert (Hfilt : List.filter (fun r => Rltb 0 r) rs = List.filter (fun r => negb (Reqb r 0)) rs).
  { apply filter_ext_in. intros r Hin.
    rewrite List.Forall_forall in Hnn. specialize (Hnn r Hin).
    destruct (Req_EM_T r 0) as [->|Hne].
    - rewrite Reqb_refl, Rltb_false by lra. reflexivity.
    - rewrite Reqb_neq, Rltb_true by lra. reflexivity. }
  split; [|split; [|split]].
  - destruct us as [|x us'].
    + subst m rs. simpl in Hnn |- *.
      inversion Hnn as [|? ? Hu _]; subst.
      unfold combined_rating; cbn [subratings size base new_tag proper rating].
      unfold reduce_mul; simpl fold_left. rewrite Rmult_1_l.
      destruct (Reqb (rating u) 0) eqn:Eq; simpl.
      * unfold Reqb in Eq. destruct (Req_EM_T (rating u) 0) as [E|]; [|discriminate].
        destruct (proper u); simpl.
        -- rewrite E, Rltb_false by lra. reflexivity.
        -- rewrite E. symmetry. apply py_pow_zero.
      * assert (H1 := py_pow_one (rating u) Hu). simpl in H1. rewrite H1. reflexivity.
    + apply build_chain_rating. discriminate.
  - intros Hcase. rewrite Hcr.
    destruct Hcase as [Hne|Hf].
    + rewrite Reqb_neq by exact Hne. reflexivity.
    + rewrite Hf, andb_false_r. reflexivity.
  - intros H0 Hpt Hex. rewrite Hcr, H0, Reqb_refl, Hpt. cbv zeta.
    rewrite Hfilt. unfold geometric_mean.
    destruct (length (List.filter (fun r => negb (Reqb r 0)) rs)) eqn:Hlen; [|reflexivity].
    exfalso. apply List.Exists_exists in Hex. destruct Hex as (r & Hin & Hr0).
    apply length_zero_iff_nil in Hlen.
    assert (Hin' : In r (List.filter (fun r => negb (Reqb r 0)) rs)).
    { apply filter_In. split; [exact Hin|]. rewrite Reqb_neq by exact Hr0. reflexivity. }
    rewrite Hlen in Hin'. destruct Hin'.
  - intros Hall. rewrite Hcr.
    assert (Hprod : reduce_mul rs = 0%R).
    { subst rs. simpl in Hall. inversion Hall as [|? ? Hu _]; subst.
      unfold reduce_mul. simpl. rewrite Hu, Rmult_0_r. apply fold_mul_zero. }
    rewrite Hprod, Reqb_refl. destruct (proper (base m)); cbn [andb]; cbv zeta.
    + assert (Hnil : List.filter (fun r => Rltb 0 r) rs = []).
      { rewrite List.Forall_forall in Hall.
        destruct (List.filter (fun r => Rltb 0 r) rs) as [|r l] eqn:E; [reflexivity|].
        assert (Hin : In r (List.filter (fun r => Rltb 0 r) rs)) by (rewrite E; left; reflexivity).
        apply filter_In in Hin. destruct Hin as [Hin Hlt].
        rewrite (Hall r Hin), Rltb_false in Hlt by lra. discriminate. }
      rewrite Hnil. reflexivity.
    + unfold geometric_mean. rewrite Hprod. apply py_pow_zero.
Qed.

(** The proper phrase with subratings [0.0, 0.2] is rated 0.2. *)
Lemma combined_rating_geometric_mean_witness :
  Forall (fun r => 0 <= r)%R (map rating [new_zero; york_02]) /\
  rating (base (build_chain [new_zero; york_02])) = 0.2%R.
Proof.
  assert (Hnn : Forall (fun r => 0 <= r)%R (map rating [new_zero; york_02]))
    by (repeat constructor; simpl; lra).
  split; [exact Hnn|].
  destruct (combined_rating_geometric_mean new_zero [york_02] Hnn) as (Hr & _ & Hz & _).
  rewrite Hr, Hz.
  - simpl. rewrite Reqb_refl, Reqb_neq by lra. simpl.
    unfold geometric_mean, reduce_mul. simpl. rewrite Rmult_1_l.
    apply py_pow_one. lra.
  - simpl. unfold reduce_mul. simpl. lra.
  - reflexivity.
  - apply Exists_cons_tl. apply Exists_cons_hd. simpl. lra.
Defined.

(** ** Multitag generation *)

(** [tags[i:i + n]] *)
Definition segment (tags : list Tag) (i n : nat) : list Tag := firstn n (skipn i tags).

Lemma firstn_snoc_nth {A} (l : list A) (n : nat) (d : A) :
  n < length l -> firstn (S n) l = firstn n l ++ [nth n l d].
Proof.
  revert n. induction l as [|a l IH]; intros n Hn; simpl in Hn; [lia|].
  destruct n as [|n]; [reflexivity|].
  change (firstn (S (S n)) (a :: l)) with (a :: firstn (S n) l).
  rewrite IH by lia. reflexivity.
Qed.

Lemma nth_skipn' {A} (l : list A) (i k : nat) (d : A) :
  nth k (skipn i l) d = nth (i + k) l d.
Proof.
  revert l. induction i as [|i IH]; intros l; [reflexivity|].
  destruct l as [|a l]; simpl; [destruct k; reflexivity|]. apply IH.
Qed.

Lemma segment_snoc (tags : list Tag) (i n : nat) :
  i + n < length tags ->
  segment tags i (S n) = segment tags i n ++ [nth (i + n) tags default_tag].
Proof.
  intros H. unfold segment.
  rewrite (firstn_snoc_nth _ _ default_tag) by (rewrite length_skipn; lia).
  rewrite nth_skipn'. reflexivity.
Qed.

Lemma segment_one (tags : list Tag) (i : nat) :
  i < length tags -> segment tags i 1 = [nth i tags default_tag].
Proof.
  intros H. rewrite (segment_snoc tags i 0) by lia.
  rewrite Nat.add_0_r. reflexivity.
Qed.

Lemma build_chain_terminal_snoc (l : list Tag) (x : Tag) :
  terminal (base (build_chain (l ++ [x]))) = terminal x.
Proof.
  destruct l as [|u us]; [reflexivity|].
  rewrite build_chain_snoc by discriminate. reflexivity.
Qed.

(** The components of a multitag, but the last, are not terminal. *)
Definition terminal_free (tags : list Tag) (i n : nat) : Prop :=
  forall k, k + 1 < n -> terminal (nth (i + k) tags default_tag) = false.

(** The inner loop emits the prefixes of the chain starting at [i], longer
    than the current one, that stop at the first terminal tag. *)
Lemma extend_chain_spec (tags : list Tag) (i p m : nat) (x : MultiTag) :
  i + S p <= length tags -> terminal_free tags i (S p) ->
  In x (extend_chain tags i (build_chain (segment tags i (S p))) (seq (S p) m)) <->
  exists n, S p < n /\ n <= S p + m /\ i + n <= length tags /\
            x = build_chain (segment tags i n) /\ terminal_free tags i n.
Proof.
  revert p. induction m as [|m IH]; intros p Hlen Hfree.
  - simpl. split; [intros []|]. intros (n & H1 & H2 & _). lia.
  - change (seq (S p) (S m)) with (S p :: seq (S (S p)) m). cbn [extend_chain].
    assert (Hterm : terminal (base (build_chain (segment tags i (S p))))
                    = terminal (nth (i + p) tags default_tag)).
    { rewrite segment_snoc by lia. apply build_chain_terminal_snoc. }
    rewrite Hterm.
    destruct (terminal (nth (i + p) tags default_tag)) eqn:Et; cbn [orb].
    + simpl. split; [intros []|]. intros (n & H1 & H2 & H3 & H4 & H5).
      specialize (H5 p ltac:(lia)). congruence.
    + destruct (length tags <=? i + S p) eqn:El.
      * apply Nat.leb_le in El. simpl. split; [intros []|].
        intros (n & H1 & H2 & H3 & _). lia.
      * apply Nat.leb_gt in El.
        assert (Hext : multitag_extend (nth (i + S p) tags default_tag)
                          (build_chain (segment tags i (S p)))
                       = build_chain (segment tags i (S (S p)))).
        { rewrite (segment_snoc tags i (S p)) by lia.
          rewrite build_chain_snoc; [reflexivity|].
          rewrite segment_snoc by lia. destruct (segment tags i p); discriminate. }
        assert (Hfree' : terminal_free tags i (S (S p))).
        { intros k Hk. destruct (Nat.eq_dec k p) as [->|Hne]; [exact Et|].
          apply Hfree. lia. }
        rewrite Hext. cbn [In]. rewrite (IH (S p)) by (try exact Hfree'; lia).
        split.
        -- intros [<-|(n & H1 & H2 & H3 & H4 & H5)].
           ++ exists (S (S p)). repeat split; first [reflexivity | exact Hfree' | lia].
           ++ exists n. repeat split; try lia; assumption.
        -- intros (n & H1 & H2 & H3 & H4 & H5).
           destruct (Nat.eq_dec n (S (S p))) as [->|Hne].
           ++ left. symmetry. exact H4.
           ++ right. exists n. repeat split; try lia; assumption.
Qed.

(** The multitags of [create_multitags] are exactly the chains of at most
    [max 1 multitag_size] consecutive tags that stop at the first terminal
    tag. *)
Lemma create_multitags_spec (r : Rater) (tags : list Tag) (x : MultiTag) :
  In x (create_multitags r tags) <->
  exists i n, 1 <= n /\ i + n <= length tags
              /\ n <= S (Z.to_nat (multitag_size r - 1))
              /\ x = build_chain (segment tags i n) /\ terminal_free tags i n.
Proof.
  unfold create_multitags, py_range_from1. rewrite in_flat_map.
  split.
  - intros (i & Hi & Hx). apply in_seq in Hi.
    change (multitag_unit (nth i tags default_tag))
      with (build_chain [nth i tags default_tag]) in Hx.
    rewrite <- (segment_one tags i) in Hx by lia.
    change 1 with (S 0) in Hx. destruct Hx as [<-|Hx].
    + exists i, 1. repeat split; try lia.
      intros k Hk. lia.
    + apply extend_chain_spec in Hx; [|lia|intros k Hk; lia].
      destruct Hx as (n & H1 & H2 & H3 & H4 & H5).
      exists i, n. repeat split; try lia; assumption.
  - intros (i & n & H1 & H2 & H3 & H4 & H5).
    exists i. split; [apply in_seq; lia|].
    change (multitag_unit (nth i tags default_tag))
      with (build_chain [nth i tags default_tag]).
    rewrite <- (segment_one tags i) by lia. change 1 with (S 0).
    destruct (Nat.eq_dec n 1) as [->|Hne].
    + left. symmetry. exact H4.
    + right. apply extend_chain_spec; [lia | intros k Hk; lia |].
      exists n. repeat split; try lia; assumption.
Qed.

Lemma map_nth_seq0 {A B} (f : A -> B) (l : list A) (d : A) :
  map (fun i => f (nth i l d)) (seq 0 (length l)) = map f l.
Proof.
  induction l as [|a l IH]; [reflexivity|].
  cbn [length]. rewrite <- cons_seq. cbn [map nth].
  rewrite <- seq_shift, map_map. cbn [nth]. rewrite IH. reflexivity.
Qed.

(** ** C7: multitags do not cross terminal tags *)

(** Claim C7: every multitag emitted by [create_multitags] is built from a
    run of consecutive tags none of which, but the last, is terminal. *)
Theorem multitags_stop_at_terminal (r : Rater) (tags : list Tag) (m : MultiTag)
  (Hm : In m (create_multitags r tags)) :
  exists i n, 1 <= n /\ i + n <= length tags /\ m = build_chain (segment tags i n) /\
    forall k, k + 1 < n -> terminal (nth (i + k) tags default_tag) = false.
Proof.
  apply create_multitags_spec in Hm.
  destruct Hm as (i & n & H1 & H2 & _ & H4 & H5).
  exists i, n. repeat split; assumption.
Qed.

Lemma multitags_stop_at_terminal_witness :
  In (build_chain (segment c7_tags 0 2)) (create_multitags (rater_new ∅ 3) c7_tags) /\
  exists i n, 1 <= n /\ i + n <= length c7_tags
    /\ build_chain (segment c7_tags 0 2) = build_chain (segment c7_tags i n) /\
    forall k, k + 1 < n -> terminal (nth (i + k) c7_tags default_tag) = false.
Proof.
  assert (Hin : In (build_chain (segment c7_tags 0 2))
                   (create_multitags (rater_new ∅ 3) c7_tags)).
  { apply create_multitags_spec. exists 0, 2. simpl.
    repeat split; try lia. intros k Hk. destruct k; [reflexivity | lia]. }
  split; [exact Hin|].
  exact (multitags_stop_at_terminal (rater_new ∅ 3) c7_tags _ Hin).
Defined.

(** ** C6: the multitag size is not validated *)

(** Claim C6 fails: a [Rater] constructed with multitag size 0 is
    accepted and rates a tag list. *)
Lemma rater_size_zero_accepted :
  multitag_size (rater_new ∅ 0) = 0%Z /\
  rater_call (fun l => l) (rater_new ∅ 0) [ab_tag] <> None.
Proof. split; [reflexivity | discriminate]. Qed.

(** Claim C6, as the code has it: the constructor accepts any size, and
    with a size below 1 [create_multitags] emits one single-tag multitag
    per tag, as with size 1. *)
Theorem create_multitags_small_size (w : gmap str R) (k : Z) (tags : list Tag)
  (Hk : (k <= 1)%Z) :
  multitag_size (rater_new w k) = k /\
  create_multitags (rater_new w k) tags = map multitag_unit tags.
Proof.
  split; [reflexivity|].
  unfold create_multitags, py_range_from1. cbn [multitag_size rater_new].
  replace (Z.to_nat (k - 1)) with 0 by lia. cbn [seq extend_chain].
  rewrite flat_map_concat_map, <- (map_nth_seq0 multitag_unit tags default_tag).
  induction (seq 0 (length tags)) as [|i l IH]; [reflexivity|].
  simpl. rewrite IH. reflexivity.
Qed.

Lemma create_multitags_small_size_witness :
  (0 <= 1)%Z /\
  multitag_size (rater_new ∅ 0) = 0%Z /\
  create_multitags (rater_new ∅ 0) [ab_tag] = map multitag_unit [ab_tag].
Proof.
  split; [lia|]. apply (create_multitags_small_size ∅ 0 [ab_tag]). lia.
Defined.

(** ** C3: base ratings *)

Lemma mapM_option_map {A B} (f : A -> option B) (g : A -> B) (l : list A) :
  (forall x, In x l -> f x = Some (g x)) -> mapM f l = Some (map g l).
Proof.
  induction l as [|x l IH]; intros Hf; [reflexivity|].
  simpl. rewrite (Hf x (or_introl eq_refl)).
  rewrite IH by (intros y Hy; apply Hf; right; exact Hy). reflexivity.
Qed.

(** Claim C3: on a non-empty tag list, [rate_tags] gives each tag the rating
    (occurrences of its stem) / (number of tags) * [weights.get(stem, 1.0)],
    leaving its other attributes; with empty weights the rating is the plain
    term frequency. *)
Theorem rate_tags_term_frequency (r : Rater) (tags : list Tag) (Hne : tags <> []) :
  let tf (t : Tag) := (INR (count_stem (stem t) tags) / INR (length tags))%R in
  rate_tags r tags
  = Some (map (fun t => set_rating (tf t * default 1%R (weights r !! stem t))%R t) tags) /\
  (weights r = ∅ -> rate_tags r tags = Some (map (fun t => set_rating (tf t) t) tags)).
Proof.
  cbv zeta.
  assert (Hlen : (length tags =? 0) = false).
  { apply Nat.eqb_neq. destruct tags; [congruence | discriminate]. }
  assert (H : rate_tags r tags
    = Some (map (fun t => set_rating (INR (count_stem (stem t) tags) / INR (length tags)
                                      * default 1%R (weights r !! stem t))%R t) tags)).
  { unfold rate_tags. apply mapM_option_map. intros x _.
    unfold py_div_int. rewrite Hlen. simpl. rewrite Rmult_1_l. reflexivity. }
  split; [exact H|].
  intros Hw. rewrite H, Hw. f_equal. apply map_ext. intros t.
  rewrite lookup_empty. simpl. rewrite Rmult_1_r. reflexivity.
Qed.

Lemma rate_tags_term_frequency_witness :
  [ab_tag] <> [] /\
  rate_tags (rater_new ∅ 3) [ab_tag]
  = Some (map (fun t => set_rating (INR (count_stem (stem t) [ab_tag]) / INR (length [ab_tag])
                                   * default 1%R ((∅ : gmap str R) !! stem t))%R t) [ab_tag]).
Proof.
  split; [discriminate|].
  exact (proj1 (rate_tags_term_frequency (rater_new ∅ 3) [ab_tag] ltac:(discriminate))).
Defined.

(** ** C9: blank texts *)

Lemma findall_none (p : ascii -> bool) (s : str) :
  Forall (fun c => p c = false) s -> findall p s = [].
Proof.
  induction s as [|c s IH]; intros H; [reflexivity|].
  inversion H as [|? ? Hc Hs]; subst. simpl. rewrite Hc. apply IH. exact Hs.
Qed.

Lemma re_split_pieces (p : ascii -> bool) (Q : ascii -> Prop) (s : str) :
  Forall Q s -> Forall (Forall Q) (re_split p s).
Proof.
  induction s as [|c s IH]; intros H.
  - repeat constructor.
  - inversion H as [|? ? Hc Hs]; subst. specialize (IH Hs). simpl.
    destruct (p c).
    + destruct s as [|d s']; [constructor; [constructor | exact IH]|].
      destruct (p d); [exact IH | constructor; [constructor | exact IH]].
    + destruct (re_split p s) as [|w r'] eqn:E.
      * repeat constructor. exact Hc.
      * inversion IH as [|? ? Hw Hr]; subst. constructor; [constructor; assumption | exact Hr].
Qed.

Lemma space_not_word_char (c : ascii) : is_space c = true -> is_word_char c = false.
Proof. destruct c as [[] [] [] [] [] [] [] []]; vm_compute; congruence. Qed.

Lemma space_not_backquote (c : ascii) :
  is_space c = true -> (if Nat.eqb (nat_of_ascii c) 96 then "'"%char else c) = c.
Proof. destruct c as [[] [] [] [] [] [] [] []]; vm_compute; congruence. Qed.

Lemma reader_blank (text : str) :
  Forall (fun c => is_space c = true) text -> reader_call text = [].
Proof.
  intros Hb. unfold reader_call.
  assert (Hpre : Forall (fun c => is_space c = true) (reader_preprocess text)).
  { unfold reader_preprocess. apply List.Forall_map.
    eapply List.Forall_impl; [|exact Hb]. intros c Hc. rewrite space_not_backquote by exact Hc.
    exact Hc. }
  pose proof (re_split_pieces is_paragraph_sep _ _ Hpre) as Hpars.
  induction Hpars as [|par pars Hpar Hpars IH]; [reflexivity|].
  simpl. rewrite IH, app_nil_r.
  unfold reader_paragraph.
  pose proof (re_split_pieces is_phrase_sep _ _ Hpar) as Hphr.
  destruct (re_split is_phrase_sep par) as [|phr0 rest]; [reflexivity|].
  inversion Hphr as [|? ? H0 Hrest]; subst.
  assert (Hw : forall w, Forall (fun c => is_space c = true) w -> findall is_word_char w = []).
  { intros w Hw. apply findall_none. eapply List.Forall_impl; [|exact Hw].
    intros c Hc. apply space_not_word_char. exact Hc. }
  rewrite (Hw phr0 H0). simpl. clear Hphr.
  induction Hrest as [|phr rest' Hp Hr IHr]; [reflexivity|].
  simpl. rewrite (Hw phr Hp). simpl. exact IHr.
Qed.

(** Claim C9: on an empty or whitespace-only text the reader yields no
    tags, [rate_tags] divides nothing and succeeds on the empty list, and
    the whole pipeline returns the empty list without error. *)
Theorem tagger_blank_text (set_order : list MultiTag -> list MultiTag)
  (Hperm : forall l, Permutation (set_order l) l)
  (stem_fn : str -> str) (r : Rater) (text : str) (n : Z)
  (Hblank : Forall (fun c => is_space c = true) text) :
  reader_call text = [] /\ rate_tags r [] = Some [] /\
  tagger_call set_order stem_fn r text n = Some [].
Proof.
  assert (Hr : reader_call text = []) by (apply reader_blank; exact Hblank).
  split; [exact Hr|]. split; [reflexivity|].
  unfold tagger_call. rewrite Hr. cbn.
  assert (Hp : set_order [] = []) by (apply Permutation_nil; symmetry; apply Hperm).
  rewrite Hp.
  unfold py_slice_to. destruct (0 <=? n)%Z; destruct (Z.to_nat _); reflexivity.
Qed.

Lemma tagger_blank_text_witness :
  (forall l : list MultiTag, Permutation l l) /\
  Forall (fun c => is_space c = true) blank_text /\
  (reader_call blank_text = [] /\ rate_tags (rater_new ∅ 3) [] = Some [] /\
   tagger_call (fun l => l) (fun s => s) (rater_new ∅ 3) blank_text 5 = Some []).
Proof.
  assert (Hp : forall l : list MultiTag, Permutation l l) by (intros l; reflexivity).
  assert (Hb : Forall (fun c => is_space c = true) blank_text) by (repeat constructor).
  split; [exact Hp|]. split; [exact Hb|].
  exact (tagger_blank_text (fun l => l) Hp (fun s => s) (rater_new ∅ 3) blank_text 5 Hb).
Defined.

(** ** C5: the proper flag of the reader's tags *)

Lemma phrase_tags_from_snoc (b : bool) (k : nat) (init : list str) (l : str) :
  b = false \/ 1 <= k ->
  phrase_tags_from b k (k + length init + 1) (init ++ [l])
  = map (fun w => word_tag w (first_upper w) false) init
    ++ [word_tag l (first_upper l) true].
Proof.
  revert k. induction init as [|w init IH]; intros k Hk.
  - simpl. unfold word_tag. rewrite Nat.add_0_r, Nat.eqb_refl.
    destruct Hk as [->|Hk]; [reflexivity|].
    destruct k; [lia|]. rewrite andb_false_r. reflexivity.
  - cbn [app phrase_tags_from map length].
    replace (k + S (length init) + 1) with (S k + length init + 1) by lia.
    rewrite IH by (destruct Hk; [left; assumption | right; lia]).
    replace (k + 1 =? S k + length init + 1) with false by (symmetry; apply Nat.eqb_neq; lia).
    f_equal. unfold word_tag. f_equal.
    destruct Hk as [->|Hk]; [reflexivity|].
    destruct k; [lia|]. rewrite andb_false_r. reflexivity.
Qed.

Lemma reader_first_phrase_uniform (words : list str) :
  reader_first_phrase words = phrase_tags true words.
Proof.
  unfold reader_first_phrase, phrase_tags.
  destruct words as [|w0 ws]; [reflexivity|].
  destruct ws as [|w1 ws']; [reflexivity|].
  destruct (exists_last (l := w1 :: ws') ltac:(discriminate)) as (init & l & E).
  rewrite E. cbn [length hd tl].
  replace (1 <? S (length (init ++ [l]))) with true
    by (symmetry; apply Nat.ltb_lt; rewrite length_app; simpl; lia).
  rewrite removelast_last.
  replace (List.last (w0 :: init ++ [l]) []) with l
    by (rewrite app_comm_cons, last_last; reflexivity).
  cbn [phrase_tags_from app]. rewrite length_app. cbn [length].
  replace (0 + 1 =? S (length init + 1)) with false
    by (symmetry; apply Nat.eqb_neq; lia).
  replace (S (length init + 1)) with (1 + length init + 1) by lia.
  rewrite phrase_tags_from_snoc by (right; lia). reflexivity.
Qed.

Lemma reader_next_phrase_uniform (words : list str) :
  reader_next_phrase words = phrase_tags false words.
Proof.
  unfold reader_next_phrase, phrase_tags.
  destruct words as [|w ws] using rev_ind; [reflexivity|].
  rewrite removelast_last, last_last, length_app. cbn [length].
  replace (0 <? length ws + 1) with true by (symmetry; apply Nat.ltb_lt; lia).
  change (length ws + 1) with (0 + length ws + 1).
  rewrite (phrase_tags_from_snoc false 0 ws w) by (left; reflexivity).
  destruct ws as [|w0 ws0]; [reflexivity|].
  replace (1 <? 0 + length (w0 :: ws0) + 1) with true
    by (symmetry; apply Nat.ltb_lt; simpl; lia).
  reflexivity.
Qed.

(** Claim C5, as the code has it: in each paragraph, the word tokens of
    every phrase become tags whose proper flag is the capitalisation of the
    token's first character, except the first token of the paragraph's first
    phrase, whose flag stays false; the last token of a phrase is the only
    terminal one. *)
Theorem reader_proper_flags (text : str) :
  reader_call text =
  flat_map (fun par =>
              match re_split is_phrase_sep par with
              | phr0 :: rest =>
                  phrase_tags true (findall is_word_char phr0)
                  ++ flat_map (fun phr => phrase_tags false (findall is_word_char phr)) rest
              | [] => []
              end)
           (re_split is_paragraph_sep (reader_preprocess text)).
Proof.
  unfold reader_call. apply flat_map_ext. intros par.
  unfold reader_paragraph. destruct (re_split is_phrase_sep par) as [|phr0 rest]; [reflexivity|].
  rewrite reader_first_phrase_uniform. f_equal.
  apply flat_map_ext. intros phr. apply reader_next_phrase_uniform.
Qed.

(** Claim C5 fails as stated: in "x, Paris" the phrase " Paris" has one
    token and its tag is proper; in "New York" the first token of a
    two-token phrase is capitalised but not proper. *)
Lemma reader_single_token_counterexample :
  re_split is_phrase_sep (reader_preprocess (lit "x, Paris")) = [lit "x"; lit " Paris"] /\
  findall is_word_char (lit " Paris") = [lit "Paris"] /\
  reader_call (lit "x, Paris")
  = [new_tag (lit "x") None 1%R false true; new_tag (lit "paris") None 1%R true true] /\
  reader_call (lit "New York")
  = [new_tag (lit "new") None 1%R false false; new_tag (lit "york") None 1%R true true].
Proof. repeat split; reflexivity. Qed.

(** ** The rater: sorting, pruning and ratios *)

Lemma insert_sorted_perm (x : MultiTag) (l : list MultiTag) :
  Permutation (insert_sorted x l) (x :: l).
Proof.
  induction l as [|y l IH]; [reflexivity|].
  simpl. destruct (tag_lt (base x) (base y)); [reflexivity|].
  rewrite IH. apply perm_swap.
Qed.

Lemma py_sorted_perm (l : list MultiTag) : Permutation (py_sorted l) l.
Proof.
  unfold py_sorted.
  assert (H : forall acc, Permutation (fold_left (fun acc x => insert_sorted x acc) l acc)
                                      (l ++ acc)).
  { induction l as [|x l IH]; intros acc; [reflexivity|].
    simpl. rewrite IH, insert_sorted_perm. symmetry. apply Permutation_middle. }
  rewrite H, app_nil_r. reflexivity.
Qed.

Lemma py_div_nat_some (a b : nat) (q : Q) :
  py_div_nat a b = Some q -> b <> 0 /\ q = (Z.of_nat a # Pos.of_nat b).
Proof.
  unfold py_div_nat. destruct (b =? 0) eqn:E; [discriminate|].
  intros H. injection H as <-. split; [apply Nat.eqb_neq; exact E | reflexivity].
Qed.

Lemma pos_of_nat_Z (b : nat) : b <> 0 -> Zpos (Pos.of_nat b) = Z.of_nat b.
Proof.
  intros Hb. rewrite <- positive_nat_Z, Nat2Pos.id by exact Hb. reflexivity.
Qed.

(** [cnt / cs == 1.0] *)
Lemma ratio_eq_one (a b : nat) :
  b <> 0 -> Qeq_bool (Z.of_nat a # Pos.of_nat b) 1 = true <-> a = b.
Proof.
  intros Hb. rewrite Qeq_bool_iff. unfold Qeq. simpl.
  rewrite pos_of_nat_Z by exact Hb. lia.
Qed.

(** [cnt / cs >= 0.5] *)
Lemma ratio_ge_half (a b : nat) :
  b <> 0 -> Qle_bool (1 # 2) (Z.of_nat a # Pos.of_nat b) = true <-> b <= 2 * a.
Proof.
  intros Hb. rewrite Qle_bool_iff. unfold Qle. simpl.
  rewrite pos_of_nat_Z by exact Hb. lia.
Qed.

Lemma Rltb_iff (x y : R) : Rltb x y = true <-> (x < y)%R.
Proof. unfold Rltb. destruct (Rlt_dec x y); split; congruence || tauto. Qed.

Lemma foldM_incl {B} (f : list str -> B -> option (list str)) (l : list B) (a b : list str) :
  (forall a x a', f a x = Some a' -> incl a a') ->
  foldM f a l = Some b -> incl a b.
Proof.
  intros Hf. revert a. induction l as [|x l IH]; intros a H.
  - simpl in H. injection H as <-. apply incl_refl.
  - simpl in H. destruct (f a x) as [a'|] eqn:E; [|discriminate].
    simpl in H. eapply incl_tran; [exact (Hf _ _ _ E) | exact (IH _ H)].
Qed.

Lemma foldM_visit {B} (f : list str -> B -> option (list str)) (l : list B)
    (a b : list str) (x : B) :
  (forall a x a', f a x = Some a' -> incl a a') ->
  foldM f a l = Some b -> In x l ->
  exists a0 a0', f a0 x = Some a0' /\ incl a0' b.
Proof.
  intros Hf. revert a. induction l as [|y l IH]; intros a H Hin; [destruct Hin|].
  simpl in H. destruct (f a y) as [a'|] eqn:E; [|discriminate]. simpl in H.
  destruct Hin as [<-|Hin].
  - exists a, a'. split; [exact E | exact (foldM_incl f l a' b Hf H)].
  - exact (IH a' H Hin).
Qed.

Lemma prune_span_incl (tc : list (MultiTag * nat)) (t : MultiTag) (cnt : nat)
    (words : list str) (a : list str) (li : nat * nat) (a' : list str) :
  prune_span tc t cnt words a li = Some a' -> incl a a'.
Proof.
  destruct li as [l i]. unfold prune_span.
  destruct (py_div_nat _ _) as [q|]; simpl; [|discriminate].
  intros H. injection H as <-. destruct (_ || _); apply incl_tl, incl_refl.
Qed.

Lemma in_spans (n l i : nat) : In (l, i) (spans n) <-> 1 <= l /\ l < n /\ i + l <= n.
Proof.
  unfold spans. rewrite in_flat_map. split.
  - intros (l' & Hl & Hin). apply in_seq in Hl.
    apply in_map_iff in Hin. destruct Hin as (i' & E & Hi). injection E as -> ->.
    apply in_seq in Hi. lia.
  - intros (H1 & H2 & H3). exists l. split; [apply in_seq; lia|].
    apply in_map_iff. exists i. split; [reflexivity | apply in_seq; lia].
Qed.

(** What [prune] records for one sub-span of a counted multitag. *)
Lemma prune_span_recorded (tc : list (MultiTag * nat)) (disc : list str)
    (t : MultiTag) (cnt l i : nat) :
  prune tc = Some disc -> In (t, cnt) tc ->
  1 <= l -> l < length (py_split (mstem t)) -> i + l <= length (py_split (mstem t)) ->
  let s := join_space (sublist i l (py_split (mstem t))) in
  let cs := count_of tc s in
  cs <> 0 /\
  (((cnt = cs /\ proper (base t) = true) \/ (cs <= 2 * cnt /\ (0 < rating (base t))%R)) ->
     In s disc) /\
  (~ ((cnt = cs /\ proper (base t) = true) \/ (cs <= 2 * cnt /\ (0 < rating (base t))%R)) ->
     In (mstem t) disc).
Proof.
  intros Hp Hin Hl1 Hl2 Hi. cbv zeta.
  assert (Hmono : forall a x a', (fun disc tcnt =>
           let '(t, cnt) := tcnt in
           let words := py_split (mstem t) in
           foldM (prune_span tc t cnt words) disc (spans (length words))) a x = Some a'
           -> incl a a').
  { intros a [t' c'] a' H. eapply foldM_incl; [|exact H].
    intros ? ? ?. apply prune_span_incl. }
  destruct (foldM_visit _ _ _ _ _ Hmono Hp Hin) as (d0 & d0' & Hd0 & Hinc0).
  cbv beta iota zeta in Hd0.
  assert (Hsp : In (l, i) (spans (length (py_split (mstem t))))) by (apply in_spans; lia).
  destruct (foldM_visit _ _ _ _ _ (prune_span_incl tc t cnt (py_split (mstem t))) Hd0 Hsp)
    as (a0 & a0' & Ha0 & Hinc).
  unfold prune_span in Ha0. cbn [new_tag stem] in Ha0.
  destruct (py_div_nat cnt (count_of tc (join_space (sublist i l (py_split (mstem t))))))
    as [q|] eqn:Eq; [|discriminate].
  apply py_div_nat_some in Eq. destruct Eq as [Hcs ->].
  simpl in Ha0. injection Ha0 as <-.
  set (cs := count_of tc (join_space (sublist i l (py_split (mstem t))))) in *.
  split; [exact Hcs|].
  assert (Hcond : (Qeq_bool (Z.of_nat cnt # Pos.of_nat cs) 1 && proper (base t)
                   || Qle_bool (1 # 2) (Z.of_nat cnt # Pos.of_nat cs) && Rltb 0 (rating (base t)))
                  = true <->
                  ((cnt = cs /\ proper (base t) = true) \/ (cs <= 2 * cnt /\ (0 < rating (base t))%R))).
  { rewrite orb_true_iff, !andb_true_iff, ratio_eq_one, ratio_ge_half, Rltb_iff by exact Hcs.
    reflexivity. }
  split.
  - intros Hc. apply Hcond in Hc. rewrite Hc in Hinc. apply Hinc0, Hinc. left. reflexivity.
  - intros Hc. destruct (_ || _) eqn:E.
    + exfalso. apply Hc, Hcond. reflexivity.
    + apply Hinc0, Hinc. left. reflexivity.
Qed.

Lemma rater_call_unfold (set_order : list MultiTag -> list MultiTag) (r : Rater)
    (tags : list Tag) (res : list MultiTag) :
  rater_call set_order r tags = Some res ->
  exists ts tc disc,
    rate_tags r tags = Some ts /\
    canonicalize (create_multitags r ts) (term_count_of (create_multitags r ts)) = Some tc /\
    prune tc = Some disc /\
    res = py_sorted (List.filter (fun t => negb (discarded disc t))
                                 (set_order (base_filter tc))).
Proof.
  unfold rater_call.
  destruct (rate_tags r tags) as [ts|] eqn:E1; simpl; [|discriminate].
  destruct (canonicalize _ _) as [tc|] eqn:E2; simpl; [|discriminate].
  destruct (prune tc) as [disc|] eqn:E3; simpl; [|discriminate].
  intros H. injection H as <-. exists ts, tc, disc. auto.
Qed.

Lemma in_result_not_discarded (set_order : list MultiTag -> list MultiTag)
    (disc : list str) (l : list MultiTag) (x : MultiTag) :
  In x (py_sorted (List.filter (fun t => negb (discarded disc t)) (set_order l))) ->
  In x (set_order l) /\ ~ In (mstem x) disc.
Proof.
  intros Hx. apply (Permutation_in _ (py_sorted_perm _)) in Hx.
  apply filter_In in Hx. destruct Hx as [Hx Hd]. split; [exact Hx|].
  intros Hin. unfold discarded in Hd.
  assert (existsb (str_eqb (mstem x)) disc = true).
  { apply existsb_exists. exists (mstem x). split; [exact Hin|].
    unfold str_eqb. apply bool_decide_eq_true. reflexivity. }
  rewrite H in Hd. discriminate.
Qed.

(** ** C1: redundancy pruning *)

(** Claim C1: for every counted multitag [t] with count [cnt] and every
    contiguous sub-span [s] of its stem words of length 1 to L-1, with count
    [cs] (never 0 when the call succeeds), writing [cnt / cs] for the
    relative frequency: if it is 1 and [t] is proper, or at least 0.5 and [t]
    has a positive rating, no output tag has the stem [s]; otherwise no
    output tag has the stem of [t]. *)
Theorem prune_relative_frequency (set_order : list MultiTag -> list MultiTag) (r : Rater)
    (tags : list Tag) (res : list MultiTag)
    (Hres : rater_call set_order r tags = Some res) :
  exists ts tc,
    rate_tags r tags = Some ts /\
    canonicalize (create_multitags r ts) (term_count_of (create_multitags r ts)) = Some tc /\
    forall t cnt, In (t, cnt) tc ->
    forall l i, 1 <= l -> l < length (py_split (mstem t)) ->
      i + l <= length (py_split (mstem t)) ->
      let s := join_space (sublist i l (py_split (mstem t))) in
      let cs := count_of tc s in
      cs <> 0 /\
      (((cnt = cs /\ proper (base t) = true) \/ (cs <= 2 * cnt /\ (0 < rating (base t))%R)) ->
         forall x, In x res -> mstem x <> s) /\
      (~ ((cnt = cs /\ proper (base t) = true) \/ (cs <= 2 * cnt /\ (0 < rating (base t))%R)) ->
         forall x, In x res -> mstem x <> mstem t).
Proof.
  apply rater_call_unfold in Hres as (ts & tc & disc & Er & Ec & Ep & ->).
  exists ts, tc. split; [exact Er|]. split; [exact Ec|].
  intros t cnt Hin l i Hl1 Hl2 Hi. cbv zeta.
  destruct (prune_span_recorded tc disc t cnt l i Ep Hin Hl1 Hl2 Hi) as (Hcs & Hyes & Hno).
  split; [exact Hcs|]. split.
  - intros Hc x Hx Heq. apply in_result_not_discarded in Hx as [_ Hx].
    apply Hx. rewrite Heq. apply Hyes, Hc.
  - intros Hc x Hx Heq. apply in_result_not_discarded in Hx as [_ Hx].
    apply Hx. rewrite Heq. apply Hno, Hc.
Qed.

Lemma prune_relative_frequency_witness :
  exists ts tc,
    rate_tags (rater_new ∅ 2) c1_tags = Some ts /\
    canonicalize (create_multitags (rater_new ∅ 2) ts)
                 (term_count_of (create_multitags (rater_new ∅ 2) ts)) = Some tc /\
    forall t cnt, In (t, cnt) tc ->
    forall l i, 1 <= l -> l < length (py_split (mstem t)) ->
      i + l <= length (py_split (mstem t)) ->
      let s := join_space (sublist i l (py_split (mstem t))) in
      let cs := count_of tc s in
      cs <> 0 /\
      (((cnt = cs /\ proper (base t) = true) \/ (cs <= 2 * cnt /\ (0 < rating (base t))%R)) ->
         forall x, In x c1_result -> mstem x <> s) /\
      (~ ((cnt = cs /\ proper (base t) = true) \/ (cs <= 2 * cnt /\ (0 < rating (base t))%R)) ->
         forall x, In x c1_result -> mstem x <> mstem t).
Proof.
  apply (prune_relative_frequency (fun l => l) (rater_new ∅ 2) c1_tags c1_result).
  reflexivity.
Defined.

(** ** C4: order of the output *)

Lemma Permutation_list_filter {A} (f : A -> bool) (l l' : list A) :
  Permutation l l' -> Permutation (List.filter f l) (List.filter f l').
Proof.
  induction 1 as [|x l l' _ IH|x y l|l l' l'' _ IH1 _ IH2]; simpl.
  - constructor.
  - destruct (f x); [constructor|]; exact IH.
  - destruct (f x), (f y); try constructor; reflexivity.
  - etransitivity; [exact IH1 | exact IH2].
Qed.

Lemma insert_sorted_sorted (x : MultiTag) (l : list MultiTag) :
  Sorted rating_ge l -> Sorted rating_ge (insert_sorted x l).
Proof.
  induction l as [|y l IH]; intros Hs; simpl.
  - repeat constructor.
  - destruct (tag_lt (base x) (base y)) eqn:E.
    + constructor; [exact Hs|]. constructor.
      unfold tag_lt in E. apply Rltb_iff in E. unfold rating_ge. lra.
    + assert (Hyx : rating_ge y x).
      { unfold tag_lt in E. unfold rating_ge.
        destruct (Rlt_dec (rating (base y)) (rating (base x))) as [Hlt|Hlt];
          [apply Rltb_iff in Hlt; congruence | lra]. }
      apply Sorted_inv in Hs as [Hs Hhd]. constructor; [apply IH, Hs|].
      destruct l as [|z l']; simpl.
      * constructor. exact Hyx.
      * destruct (tag_lt (base x) (base z)); constructor; [exact Hyx|].
        inversion Hhd; assumption.
Qed.

Lemma py_sorted_sorted (l : list MultiTag) : Sorted rating_ge (py_sorted l).
Proof.
  unfold py_sorted.
  assert (H : forall acc, Sorted rating_ge acc ->
              Sorted rating_ge (fold_left (fun acc x => insert_sorted x acc) l acc)).
  { induction l as [|x l IH]; intros acc Hacc; simpl; [exact Hacc|].
    apply IH, insert_sorted_sorted, Hacc. }
  apply H. constructor.
Qed.

Lemma filter_nodisc (l : list MultiTag) :
  List.filter (fun t => negb (discarded [] t)) l = l.
Proof. induction l as [|x l IH]; [reflexivity|]. cbn [List.filter]. change (negb (discarded [] x)) with true. rewrite IH. reflexivity. Qed.

Lemma c4_rate : rate_tags (rater_new ∅ 1) c4_tags = Some c4_rated.
Proof. cbv -[Rltb Reqb Rmult Rdiv INR Rpower IZR Rplus Rinv Rlt_dec Req_EM_T Rmax Rle_dec R0 R1 Rminus Ropp lookup empty]. repeat match goal with |- context [?e !! ?k] => change (e !! k) with (@None R) end. f_equal. f_equal; [|f_equal]; f_equal; simpl INR; field. Qed.

Lemma c4_create : create_multitags (rater_new ∅ 1) c4_rated = c4_ms.
Proof. reflexivity. Qed.

Lemma c4_canon : canonicalize c4_ms (term_count_of c4_ms) = Some c4_tc.
Proof. reflexivity. Qed.

Lemma c4_prune : prune c4_tc = Some [].
Proof. reflexivity. Qed.

Lemma c4_base : base_filter c4_tc = c4_ms.
Proof. unfold base_filter. cbn -[Rltb Rdiv]. rewrite Rltb_true by lra. reflexivity. Qed.

Lemma c4_run h : rater_call (small_set_order h) (rater_new ∅ 1) c4_tags = Some (py_sorted (small_set_order h c4_ms)).
Proof. unfold rater_call. rewrite c4_rate. cbn [mbind option_bind].
  rewrite c4_create, c4_canon. cbn [mbind option_bind]. rewrite c4_prune. cbn [mbind option_bind].
  rewrite c4_base, filter_nodisc. reflexivity. Qed.

Lemma c4_order1 : small_set_order c4_hash1 c4_ms = c4_ms.
Proof. reflexivity. Qed.

Lemma c4_order2 : small_set_order c4_hash2 c4_ms = rev c4_ms.
Proof. reflexivity. Qed.

Lemma c4_sorted1 : py_sorted c4_ms = c4_ms.
Proof. unfold py_sorted. cbn -[Rltb Rdiv]. unfold tag_lt, new_tag. cbn [rating]. rewrite Rltb_false by lra. reflexivity. Qed.

Lemma c4_sorted2 : py_sorted (rev c4_ms) = rev c4_ms.
Proof. unfold py_sorted. cbn -[Rltb Rdiv]. unfold tag_lt, new_tag. cbn [rating]. rewrite Rltb_false by lra. reflexivity. Qed.

(** Claim C4 fails as stated: two tags of equal rating come out in the
    iteration order of the set [unique_tags], which follows the string
    hashes; with two hash functions (two interpreter runs with different
    hash seeds) the same input gives two different output lists. *)
Lemma rater_tie_order_counterexample :
  rater_call (small_set_order c4_hash1) (rater_new ∅ 1) c4_tags <>
  rater_call (small_set_order c4_hash2) (rater_new ∅ 1) c4_tags.
Proof.
  rewrite !c4_run, c4_order1, c4_order2, c4_sorted1, c4_sorted2. vm_compute. discriminate.
Qed.

(** Claim C4, as the code has it: whatever the iteration order of the set,
    the output is sorted by non-increasing rating, and the outputs of two
    runs that differ only in that order are permutations of each other. *)
Theorem rater_output_sorted_permutation
    (set_order1 set_order2 : list MultiTag -> list MultiTag) (r : Rater) (tags : list Tag)
    (res1 res2 : list MultiTag)
    (Hperm1 : forall l, Permutation (set_order1 l) l)
    (Hperm2 : forall l, Permutation (set_order2 l) l)
    (E1 : rater_call set_order1 r tags = Some res1)
    (E2 : rater_call set_order2 r tags = Some res2) :
  Sorted rating_ge res1 /\ Sorted rating_ge res2 /\ Permutation res1 res2.
Proof.
  apply rater_call_unfold in E1 as (ts & tc & disc & Er & Ec & Ep & ->).
  apply rater_call_unfold in E2 as (ts' & tc' & disc' & Er' & Ec' & Ep' & ->).
  rewrite Er in Er'. injection Er' as <-.
  rewrite Ec in Ec'. injection Ec' as <-.
  rewrite Ep in Ep'. injection Ep' as <-.
  split; [apply py_sorted_sorted|]. split; [apply py_sorted_sorted|].
  rewrite !py_sorted_perm. apply Permutation_list_filter.
  rewrite Hperm1, Hperm2. reflexivity.
Qed.

Lemma rater_output_sorted_permutation_witness :
  Sorted rating_ge (c4_result (fun l => l)) /\
  Sorted rating_ge (c4_result (@rev MultiTag)) /\
  Permutation (c4_result (fun l => l)) (c4_result (@rev MultiTag)).
Proof.
  apply (rater_output_sorted_permutation (fun l => l) (@rev MultiTag) (rater_new ∅ 1) c4_tags).
  - intros l. reflexivity.
  - intros l. symmetry. apply Permutation_rev.
  - reflexivity.
  - reflexivity.
Defined.

(** ** C10: no division by zero in the pruning *)

(** Claim C10 fails as stated: a tag with an empty stem (no whitespace in
    it) inside a chain gives the multitag stem "a  b c", whose sub-span
    "a b" names no multitag; [term_count] gives 0 for it and the division
    raises [ZeroDivisionError]. *)
Lemma rater_empty_stem_counterexample :
  forallb (fun t => forallb (fun c => negb (is_space c)) (stem t)) c10_tags = true /\
  Z.le 1 (multitag_size (rater_new ∅ 4)) /\
  forall set_order, rater_call set_order (rater_new ∅ 4) c10_tags = None.
Proof.
  split; [reflexivity|]. split; [vm_compute; discriminate|].
  intros set_order. reflexivity.
Qed.

(** The same crash through the default [Reader] and [Stemmer]: in the text
    "a _ b c" the word "_" is read as a tag, [Stemmer.preprocess] deletes it
    ([\b_\b]) and its stem is empty; with [multitag_size = 4] the Tagger
    fails for any set order and any [tags_number]. *)
Lemma tagger_empty_stem_crash :
  map stem (map (stemmer_call (fun s => s)) (reader_call (lit "a _ b c")))
    = [lit "a"; []; lit "b"; lit "c"] /\
  forall set_order n,
    tagger_call set_order (fun s => s) (rater_new ∅ 4) (lit "a _ b c") n = None.
Proof. split; [reflexivity|]. intros set_order n. reflexivity. Qed.

(** *** Splitting joined words *)

Lemma findall_cons (p : ascii -> bool) (c : ascii) (s : str) :
  findall p (c :: s) =
  let ws := findall p s in
  if p c then
    match s with
    | d :: _ => if p d then match ws with w :: ws' => (c :: w) :: ws' | [] => [[c]] end
                else [c] :: ws
    | [] => [[c]]
    end
  else ws.
Proof. reflexivity. Qed.

Lemma findall_app (p : ascii -> bool) (w s : str) :
  w <> [] -> Forall (fun c => p c = true) w ->
  match s with [] => True | d :: _ => p d = false end ->
  findall p (w ++ s) = w :: findall p s.
Proof.
  intros Hw Hp Hs. induction w as [|c w IH]; [congruence|].
  inversion Hp as [|? ? Hc Hp']; subst.
  destruct w as [|d w].
  - simpl. rewrite Hc. destruct s as [|d s]; [reflexivity|]. rewrite Hs. reflexivity.
  - change ((c :: d :: w) ++ s) with (c :: ((d :: w) ++ s)).
    rewrite findall_cons, IH by (congruence || exact Hp'). cbv zeta.
    rewrite Hc. inversion Hp'; subst. cbn [app]. rewrite H1. reflexivity.
Qed.

Lemma py_split_join_space (ws : list str) :
  Forall (fun w => w <> [] /\ Forall (fun c => is_space c = false) w) ws ->
  py_split (join_space ws) = ws.
Proof.
  unfold py_split. intros Hws.
  assert (Hp : forall w, w <> [] /\ Forall (fun c => is_space c = false) w ->
               Forall (fun c => negb (is_space c) = true) w).
  { intros w [_ Hw]. eapply List.Forall_impl; [|exact Hw].
    intros c Hc. rewrite Hc. reflexivity. }
  induction Hws as [|w ws Hw Hws IH]; [reflexivity|].
  destruct ws as [|w2 ws].
  - change (join_space [w]) with w.
    transitivity (findall (fun c => negb (is_space c)) (w ++ [])); [rewrite app_nil_r; reflexivity|].
    rewrite findall_app by (apply Hw || apply Hp, Hw || exact I). reflexivity.
  - change (join_space (w :: w2 :: ws)) with (w ++ [" "%char] ++ join_space (w2 :: ws)).
    rewrite findall_app by (apply Hw || apply Hp, Hw || reflexivity).
    f_equal. exact IH.
Qed.

(** *** Segments *)

Lemma in_firstn' {A} (n : nat) (l : list A) (x : A) : In x (firstn n l) -> In x l.
Proof. intros H. rewrite <- (firstn_skipn n l). apply in_or_app. left. exact H. Qed.

Lemma in_skipn' {A} (n : nat) (l : list A) (x : A) : In x (skipn n l) -> In x l.
Proof. intros H. rewrite <- (firstn_skipn n l). apply in_or_app. right. exact H. Qed.

Lemma sublist_segment (f : Tag -> str) (ts : list Tag) (j n i l : nat) :
  i + l <= n ->
  sublist i l (map f (segment ts j n)) = map f (segment ts (j + i) l).
Proof.
  intros H. unfold sublist, segment.
  rewrite skipn_map, firstn_map, skipn_firstn_comm, firstn_firstn, skipn_skipn.
  rewrite (Nat.add_comm i j). f_equal. f_equal. lia.
Qed.

Lemma length_segment (ts : list Tag) (i n : nat) :
  i + n <= length ts -> length (segment ts i n) = n.
Proof. intros H. unfold segment. rewrite length_firstn, length_skipn. lia. Qed.

Lemma terminal_free_sub (ts : list Tag) (j n i l : nat) :
  i + l <= n -> terminal_free ts j n -> terminal_free ts (j + i) l.
Proof.
  unfold terminal_free. intros H Hf k Hk.
  rewrite <- Nat.add_assoc. apply Hf. lia.
Qed.

Lemma good_stem_spec (t : Tag) :
  good_stem t = true -> stem t <> [] /\ Forall (fun c => is_space c = false) (stem t).
Proof.
  unfold good_stem. destruct (stem t) as [|c s]; [discriminate|].
  intros H. split; [discriminate|]. apply List.Forall_forall. intros d Hd.
  rewrite forallb_forall in H. specialize (H d Hd). destruct (is_space d); [discriminate | reflexivity].
Qed.

Lemma build_chain_stem (ts : list Tag) :
  ts <> [] -> Forall (fun t => good_stem t = true) ts ->
  mstem (build_chain ts) = join_space (map stem ts).
Proof.
  intros Hne Hg. destruct ts as [|u us]; [congruence|].
  unfold mstem. destruct (build_chain_fields u us) as (_ & Hs & _).
  rewrite Hs. inversion Hg as [|? ? Hu _]; subst. apply good_stem_spec in Hu as [Hu _].
  cbn [map]. f_equal. f_equal. unfold str_or. destruct (stem u); [congruence | reflexivity].
Qed.

(** *** Counters *)

Lemma counter_add_pos (m : MultiTag) (c : list (MultiTag * nat)) :
  counts_pos c -> counts_pos (counter_add m c).
Proof.
  unfold counts_pos. induction c as [|[k n] c IH]; intros Hc; simpl.
  - repeat constructor.
  - inversion Hc; subst. destruct (str_eqb _ _); constructor; simpl in *; auto; lia.
Qed.

Lemma counter_add_keys (m : MultiTag) (c : list (MultiTag * nat)) (k : MultiTag) (n : nat) :
  In (k, n) (counter_add m c) -> k = m \/ exists n', In (k, n') c.
Proof.
  induction c as [|[k' n'] c IH]; simpl.
  - intros [H|[]]. injection H as -> _. left. reflexivity.
  - destruct (str_eqb _ _).
    + intros [H|H]; [injection H as -> _; right; exists n'; left; reflexivity|].
      right. exists n. right. exact H.
    + intros [H|H]; [injection H as -> _; right; exists n'; left; reflexivity|].
      destruct (IH H) as [->|[n'' Hn]]; [left; reflexivity|].
      right. exists n''. right. exact Hn.
Qed.

Lemma counter_add_stems (m : MultiTag) (c : list (MultiTag * nat)) (s : str) :
  (s = mstem m \/ exists k n, In (k, n) c /\ mstem k = s) ->
  exists k n, In (k, n) (counter_add m c) /\ mstem k = s.
Proof.
  induction c as [|[k n] c IH]; simpl; intros Hs.
  - destruct Hs as [->|(k & n & [] & _)]. exists m, 1. split; [left|]; reflexivity.
  - destruct (str_eqb (mstem k) (mstem m)) eqn:E.
    + apply bool_decide_eq_true in E.
      destruct Hs as [->|(k' & n' & [H|H] & Hk)].
      * exists k, (S n). split; [left; reflexivity | exact E].
      * injection H as -> ->. exists k', (S n'). split; [left; reflexivity | exact Hk].
      * exists k', n'. split; [right; exact H | exact Hk].
    + destruct Hs as [->|(k' & n' & [H|H] & Hk)].
      * destruct (IH (or_introl eq_refl)) as (k' & n' & H & Hk).
        exists k', n'. split; [right; exact H | exact Hk].
      * injection H as -> ->. exists k', n'. split; [left; reflexivity | exact Hk].
      * destruct (IH (or_intror (ex_intro _ k' (ex_intro _ n' (conj H Hk)))))
          as (k'' & n'' & H' & Hk').
        exists k'', n''. split; [right; exact H' | exact Hk'].
Qed.

Lemma term_count_of_spec (ms : list MultiTag) :
  counts_pos (term_count_of ms) /\
  (forall k n, In (k, n) (term_count_of ms) -> In k ms) /\
  (forall m, In m ms -> exists k n, In (k, n) (term_count_of ms) /\ mstem k = mstem m).
Proof.
  unfold term_count_of.
  assert (H : forall acc, counts_pos acc ->
    counts_pos (fold_left (fun c m => counter_add m c) ms acc) /\
    (forall k n, In (k, n) (fold_left (fun c m => counter_add m c) ms acc) ->
                 In k ms \/ exists n', In (k, n') acc) /\
    (forall s, ((exists m, In m ms /\ mstem m = s) \/ exists k n, In (k, n) acc /\ mstem k = s) ->
       exists k n, In (k, n) (fold_left (fun c m => counter_add m c) ms acc) /\ mstem k = s)).
  { induction ms as [|m ms IH]; intros acc Hacc; simpl.
    - split; [exact Hacc|]. split.
      + intros k n Hk. right. exists n. exact Hk.
      + intros s [(m & [] & _)|Hs]. exact Hs.
    - destruct (IH (counter_add m acc) (counter_add_pos m acc Hacc)) as (H1 & H2 & H3).
      split; [exact H1|]. split.
      + intros k n Hk. destruct (H2 k n Hk) as [Hin|(n' & Hin)]; [left; right; exact Hin|].
        destruct (counter_add_keys m acc k n' Hin) as [->|Hin']; [left; left; reflexivity|].
        right. exact Hin'.
      + intros s Hs. apply H3.
        destruct Hs as [(m' & [<-|Hm'] & Hs)|Hs].
        * right. apply counter_add_stems. left. symmetry. exact Hs.
        * left. exists m'. split; assumption.
        * right. apply counter_add_stems. right. exact Hs. }
  destruct (H [] (List.Forall_nil _)) as (H1 & H2 & H3).
  split; [exact H1|]. split.
  - intros k n Hk. destruct (H2 k n Hk) as [Hin|(n' & [])]. exact Hin.
  - intros m Hm. apply H3. left. exists m. split; [exact Hm | reflexivity].
Qed.

Lemma count_of_pos (tc : list (MultiTag * nat)) (s : str) :
  counts_pos tc -> (exists k n, In (k, n) tc /\ mstem k = s) -> 1 <= count_of tc s.
Proof.
  intros Hpos (k & n & Hin & Hk). unfold count_of.
  destruct (List.find _ tc) as [[k' n']|] eqn:E.
  - apply find_some in E as [E _]. unfold counts_pos in Hpos.
    rewrite List.Forall_forall in Hpos. exact (Hpos _ E).
  - exfalso. eapply find_none in E; [|exact Hin]. simpl in E.
    unfold str_eqb in E. rewrite bool_decide_eq_true_2 in E by exact Hk. discriminate.
Qed.

(** *** Successful steps *)

Lemma Forall2_in_r {A B} (P : A -> B -> Prop) (l : list A) (k : list B) (y : B) :
  Forall2 P l k -> In y k -> exists x, In x l /\ P x y.
Proof.
  induction 1 as [|x y' l k Hxy _ IH]; [intros []|].
  intros [<-|Hy]; [exists x; split; [left; reflexivity | exact Hxy]|].
  destruct (IH Hy) as (x' & Hx' & Hp). exists x'. split; [right; exact Hx' | exact Hp].
Qed.

Lemma Forall2_in_l {A B} (P : A -> B -> Prop) (l : list A) (k : list B) (x : A) :
  Forall2 P l k -> In x l -> exists y, In y k /\ P x y.
Proof.
  induction 1 as [|x' y l k Hxy _ IH]; [intros []|].
  intros [<-|Hx]; [exists y; split; [left; reflexivity | exact Hxy]|].
  destruct (IH Hx) as (y' & Hy' & Hp). exists y'. split; [right; exact Hy' | exact Hp].
Qed.

Lemma mapM_total {A B} (f : A -> option B) (l : list A) :
  (forall x, In x l -> exists y, f x = Some y) -> exists k, mapM f l = Some k.
Proof.
  induction l as [|x l IH]; intros Hf; [exists []; reflexivity|].
  destruct (Hf x (or_introl eq_refl)) as [y Hy].
  destruct IH as [k Hk]; [intros z Hz; apply Hf; right; exact Hz|].
  exists (y :: k). simpl. rewrite Hy, Hk. reflexivity.
Qed.

Lemma foldM_total {A B} (f : A -> B -> option A) (l : list B) (a : A) :
  (forall a x, In x l -> exists a', f a x = Some a') -> exists b, foldM f a l = Some b.
Proof.
  revert a. induction l as [|x l IH]; intros a Hf; [exists a; reflexivity|].
  destruct (Hf a x (or_introl eq_refl)) as [a' Ha']. simpl. rewrite Ha'. simpl.
  apply IH. intros a0 y Hy. apply Hf. right. exact Hy.
Qed.

Lemma rate_tags_stems (r : Rater) (tags ts : list Tag) :
  rate_tags r tags = Some ts -> Forall2 (fun x y => stem y = stem x) tags ts.
Proof.
  intros H. apply mapM_Some_1 in H. eapply Forall2_impl; [exact H|].
  intros x y Hxy. cbv beta in Hxy.
  destruct (py_div_int (1 * INR (count_stem (stem x) tags)) (length tags)); simpl in Hxy;
    [|discriminate].
  injection Hxy as <-. reflexivity.
Qed.

Lemma rate_tags_total (r : Rater) (tags : list Tag) : exists ts, rate_tags r tags = Some ts.
Proof.
  apply mapM_total. intros x Hx. unfold py_div_int.
  destruct (length tags =? 0) eqn:E.
  - apply Nat.eqb_eq, length_zero_iff_nil in E. subst. destruct Hx.
  - simpl. eexists. reflexivity.
Qed.

Lemma canonicalize_stems (ms : list MultiTag) (tc0 tc : list (MultiTag * nat)) :
  canonicalize ms tc0 = Some tc ->
  Forall2 (fun x y => snd y = snd x /\ mstem (fst y) = mstem (fst x)) tc0 tc.
Proof.
  intros H. apply mapM_Some_1 in H. eapply Forall2_impl; [exact H|].
  intros [t0 c0] [t c] Hxy. cbv beta iota zeta in Hxy.
  destruct (py_div_nat _ _); simpl in Hxy; [|discriminate].
  destruct (Qle_bool _ _); injection Hxy as <- <-; split; reflexivity.
Qed.

Lemma canonicalize_total (ms : list MultiTag) (tc0 : list (MultiTag * nat)) :
  counts_pos tc0 -> exists tc, canonicalize ms tc0 = Some tc.
Proof.
  intros Hpos. apply mapM_total. intros [t0 c0] Hin.
  unfold counts_pos in Hpos. rewrite List.Forall_forall in Hpos.
  specialize (Hpos _ Hin). simpl in Hpos. cbv beta iota zeta.
  unfold py_div_nat. destruct (c0 =? 0) eqn:E; [apply Nat.eqb_eq in E; lia|].
  simpl. destruct (Qle_bool _ _); eexists; reflexivity.
Qed.

(** Every sub-span of a counted multitag names a counted multitag. *)
Lemma subspan_counted (r : Rater) (ts : list Tag) (tc : list (MultiTag * nat))
    (Hg : Forall (fun t => good_stem t = true) ts)
    (Hc : canonicalize (create_multitags r ts) (term_count_of (create_multitags r ts)) = Some tc)
    (t : MultiTag) (cnt l i : nat) :
  In (t, cnt) tc -> 1 <= l -> l < length (py_split (mstem t)) ->
  i + l <= length (py_split (mstem t)) ->
  1 <= count_of tc (join_space (sublist i l (py_split (mstem t)))).
Proof.
  intros Hin Hl1 Hl2 Hi.
  set (ms := create_multitags r ts) in *.
  destruct (term_count_of_spec ms) as (Hpos0 & Hkeys & Hstems).
  apply canonicalize_stems in Hc.
  assert (Hpos : counts_pos tc).
  { unfold counts_pos. apply List.Forall_forall. intros [k n] Hk.
    destruct (Forall2_in_r _ _ _ _ Hc Hk) as ([k0 n0] & Hk0 & Hn & _). simpl in *.
    unfold counts_pos in Hpos0. rewrite List.Forall_forall in Hpos0.
    specialize (Hpos0 _ Hk0). simpl in Hpos0. lia. }
  destruct (Forall2_in_r _ _ _ _ Hc Hin) as ([t0 c0] & Ht0 & _ & Hst). simpl in Hst.
  apply Hkeys in Ht0. apply create_multitags_spec in Ht0.
  destruct Ht0 as (j & n & Hn1 & Hjn & Hbound & -> & Hfree).
  assert (Hgood : forall a b, Forall (fun t => good_stem t = true) (segment ts a b)).
  { intros a b. apply List.Forall_forall. intros x Hx.
    apply in_firstn', in_skipn' in Hx. rewrite List.Forall_forall in Hg. exact (Hg x Hx). }
  assert (Hne : forall a b, 1 <= b -> a + b <= length ts -> segment ts a b <> []).
  { intros a b Hb Hab E. apply (f_equal (@length Tag)) in E.
    rewrite length_segment in E by exact Hab. simpl in E. lia. }
  rewrite Hst, build_chain_stem in Hl2, Hi |- * by first [apply Hgood | apply Hne; lia].
  rewrite py_split_join_space in Hl2, Hi |- *.
  2-4: apply List.Forall_map; eapply List.Forall_impl; [|apply Hgood];
       intros x Hx; apply good_stem_spec, Hx.
  rewrite length_map, length_segment in Hl2, Hi by exact Hjn.
  rewrite sublist_segment by exact Hi.
  apply count_of_pos; [exact Hpos|].
  assert (Hm : In (build_chain (segment ts (j + i) l)) ms).
  { apply create_multitags_spec. exists (j + i), l.
    split; [exact Hl1|]. split; [lia|]. split; [lia|]. split; [reflexivity|].
    apply (terminal_free_sub ts j n i l); [exact Hi | exact Hfree]. }
  destruct (Hstems _ Hm) as (k & n' & Hk & Hks).
  destruct (Forall2_in_l _ _ _ _ Hc Hk) as ([k' n''] & Hk' & _ & Hks'). simpl in Hks'.
  exists k', n''. split; [exact Hk'|].
  rewrite Hks', Hks, build_chain_stem by first [apply Hgood | apply Hne; lia]. reflexivity.
Qed.

(** Claim C10, as the code has it: when every tag's stem is non-empty and
    free of whitespace (for any multitag size), every contiguous sub-span of
    a counted multitag's stem words has count at least 1, and [Rater.__call__]
    returns a result: no division by zero happens. *)
Theorem subspans_counted (set_order : list MultiTag -> list MultiTag) (r : Rater)
    (tags : list Tag) (Hstems : forallb good_stem tags = true) :
  (forall ts tc,
     rate_tags r tags = Some ts ->
     canonicalize (create_multitags r ts) (term_count_of (create_multitags r ts)) = Some tc ->
     forall t cnt, In (t, cnt) tc ->
     forall l i, 1 <= l -> l < length (py_split (mstem t)) ->
       i + l <= length (py_split (mstem t)) ->
       1 <= count_of tc (join_space (sublist i l (py_split (mstem t))))) /\
  exists res, rater_call set_order r tags = Some res.
Proof.
  assert (Hg : forall ts, rate_tags r tags = Some ts -> Forall (fun t => good_stem t = true) ts).
  { intros ts Hts. apply rate_tags_stems in Hts.
    apply List.Forall_forall. intros y Hy.
    destruct (Forall2_in_r _ _ _ _ Hts Hy) as (x & Hx & Hxy).
    rewrite forallb_forall in Hstems. specialize (Hstems x Hx).
    unfold good_stem in *. rewrite Hxy. exact Hstems. }
  split.
  - intros ts tc Hts Hc t cnt Hin l i Hl1 Hl2 Hi.
    exact (subspan_counted r ts tc (Hg ts Hts) Hc t cnt l i Hin Hl1 Hl2 Hi).
  - destruct (rate_tags_total r tags) as [ts Hts].
    destruct (term_count_of_spec (create_multitags r ts)) as (Hpos0 & _).
    destruct (canonicalize_total (create_multitags r ts) _ Hpos0) as [tc Hc].
    assert (Hp : exists disc, prune tc = Some disc).
    { apply foldM_total. intros a [t cnt] Hin. apply foldM_total.
      intros a' [l i] Hli. apply in_spans in Hli. destruct Hli as (Hl1 & Hl2 & Hi).
      pose proof (subspan_counted r ts tc (Hg ts Hts) Hc t cnt l i Hin Hl1 Hl2 Hi) as Hcnt.
      unfold prune_span. cbn [new_tag stem]. unfold py_div_nat.
      destruct (_ =? 0) eqn:E; [apply Nat.eqb_eq in E; lia|].
      simpl. eexists. reflexivity. }
    destruct Hp as [disc Hp].
    eexists. unfold rater_call. rewrite Hts. simpl. rewrite Hc. simpl. rewrite Hp. reflexivity.
Qed.

Lemma subspans_counted_witness :
  forallb good_stem c10_good_tags = true /\
  ((forall ts tc,
     rate_tags (rater_new ∅ 3) c10_good_tags = Some ts ->
     canonicalize (create_multitags (rater_new ∅ 3) ts)
                  (term_count_of (create_multitags (rater_new ∅ 3) ts)) = Some tc ->
     forall t cnt, In (t, cnt) tc ->
     forall l i, 1 <= l -> l < length (py_split (mstem t)) ->
       i + l <= length (py_split (mstem t)) ->
       1 <= count_of tc (join_space (sublist i l (py_split (mstem t))))) /\
   exists res, rater_call (fun l => l) (rater_new ∅ 3) c10_good_tags = Some res).
Proof.
  split; [reflexivity|].
  apply (subspans_counted (fun l => l) (rater_new ∅ 3) c10_good_tags). reflexivity.
Defined.

(* ================================================================== *)
(** * Further properties of the code *)

(** ** Tokens through the paragraph and phrase splits *)

Lemma findall_words (p : ascii -> bool) (s : str) (w : str) :
  In w (findall p s) -> w <> [] /\ Forall (fun c => p c = true) w.
Proof.
  revert w. induction s as [|c s IH]; intros w Hw; [destruct Hw|].
  rewrite findall_cons in Hw. cbv zeta in Hw.
  destruct (p c) eqn:Ec; [|exact (IH w Hw)].
  destruct s as [|d s'].
  - destruct Hw as [<-|[]]. split; [discriminate | repeat constructor; exact Ec].
  - destruct (p d) eqn:Ed.
    + destruct (findall p (d :: s')) as [|w1 ws'] eqn:Ef.
      * destruct Hw as [<-|[]]. split; [discriminate | repeat constructor; exact Ec].
      * destruct Hw as [<-|Hw].
        -- destruct (IH w1 (or_introl eq_refl)) as [_ H1].
           split; [discriminate | constructor; assumption].
        -- apply IH. right. exact Hw.
    + destruct Hw as [<-|Hw]; [split; [discriminate | repeat constructor; exact Ec]|].
      apply IH. exact Hw.
Qed.

Lemma findall_head_nonempty (p : ascii -> bool) (d : ascii) (s : str) :
  p d = true -> findall p (d :: s) <> [].
Proof.
  intros Hd. rewrite findall_cons. cbv zeta. rewrite Hd.
  destruct s as [|e s]; [discriminate|].
  destruct (p e); [|discriminate]. destruct (findall p (e :: s)); discriminate.
Qed.

(** Prepending one character to two strings that [findall] splits alike. *)
Lemma findall_cons_app (p : ascii -> bool) (c : ascii) (x z : str) (Y : list str) :
  (hd_error x = hd_error z \/ (x = [] /\ exists d z', z = d :: z' /\ p d = false)) ->
  findall p x ++ Y = findall p z ->
  findall p (c :: x) ++ Y = findall p (c :: z).
Proof.
  intros Hxz H. rewrite (findall_cons p c x), (findall_cons p c z). cbv zeta.
  destruct (p c) eqn:Ec; [|exact H].
  destruct Hxz as [Hhd|(-> & d & z' & -> & Hd)].
  - destruct x as [|d x'], z as [|d' z']; simpl in Hhd; try discriminate.
    + simpl in H. subst Y. reflexivity.
    + injection Hhd as <-. cbv beta iota. destruct (p d) eqn:Ed.
      * destruct (findall p (d :: x')) as [|w1 ws'] eqn:Ef;
          [exfalso; exact (findall_head_nonempty p d x' Ed Ef)|].
        change ((w1 :: ws') ++ Y) with (w1 :: (ws' ++ Y)) in H. rewrite <- H. reflexivity.
      * change (([c] :: findall p (d :: x')) ++ Y) with ([c] :: (findall p (d :: x') ++ Y)).
        rewrite H. reflexivity.
  - change (findall p [] ++ Y) with Y in H. cbv beta iota. rewrite Hd, <- H. reflexivity.
Qed.

Lemma re_split_nonempty (q : ascii -> bool) (s : str) : re_split q s <> [].
Proof.
  induction s as [|c s IH]; simpl; [discriminate|].
  destruct (q c).
  - destruct s as [|d s']; [discriminate|]. destruct (q d); [exact IH | discriminate].
  - destruct (re_split q s); [contradiction | discriminate].
Qed.

Lemma re_split_cons (q : ascii -> bool) (c : ascii) (s : str) :
  re_split q (c :: s) =
  if q c then
    match s with
    | d :: _ => if q d then re_split q s else [] :: re_split q s
    | [] => [] :: re_split q s
    end
  else
    match re_split q s with
    | w :: r' => (c :: w) :: r'
    | [] => [[c]]
    end.
Proof. reflexivity. Qed.

Lemma re_split_sep_first (q : ascii -> bool) (c : ascii) (s : str) :
  q c = true -> exists r, re_split q (c :: s) = [] :: r.
Proof.
  revert c. induction s as [|d s IH]; intros c Hc; rewrite re_split_cons, Hc.
  - eexists. reflexivity.
  - destruct (q d) eqn:Ed; [|eexists; reflexivity].
    destruct (IH d Ed) as [r Hr]. rewrite Hr. eexists. reflexivity.
Qed.

Lemma re_split_first (q : ascii -> bool) (s w : str) (r : list str) :
  re_split q s = w :: r ->
  hd_error w = hd_error s \/ (w = [] /\ exists d s', s = d :: s' /\ q d = true).
Proof.
  destruct s as [|c s].
  - simpl. intros H. injection H as <- _. left. reflexivity.
  - destruct (q c) eqn:Ec.
    + destruct (re_split_sep_first q c s Ec) as [r' Hr']. rewrite Hr'.
      intros H. injection H as <- _. right. split; [reflexivity|]. exists c, s. auto.
    + simpl. rewrite Ec. destruct (re_split q s); [|]; intros H; injection H as <- _;
        left; reflexivity.
Qed.

(** Splitting at separator characters that are not token characters
    neither loses nor merges tokens. *)
Lemma findall_re_split (p q : ascii -> bool) (s : str) :
  (forall c, q c = true -> p c = false) ->
  flat_map (findall p) (re_split q s) = findall p s.
Proof.
  intros Hqp. induction s as [|c s IH]; [reflexivity|].
  destruct (q c) eqn:Ec.
  - pose proof (Hqp c Ec) as Hpc. rewrite re_split_cons, Ec.
    rewrite findall_cons. cbv zeta. rewrite Hpc.
    destruct s as [|d s']; [reflexivity|].
    destruct (q d); exact IH.
  - rewrite re_split_cons, Ec.
    destruct (re_split q s) as [|w r] eqn:Er; [exfalso; exact (re_split_nonempty q s Er)|].
    change (findall p w ++ flat_map (findall p) r = findall p s) in IH.
    change (findall p (c :: w) ++ flat_map (findall p) r = findall p (c :: s)).
    apply findall_cons_app; [|exact IH].
    destruct (re_split_first q s w r Er) as [H|(-> & d & s' & -> & Hd)]; [left; exact H|].
    right. split; [reflexivity|]. exists d, s'. split; [reflexivity | apply Hqp, Hd].
Qed.

Ltac ascii_cases := let c := fresh "c" in
  intros c; destruct c as [[] [] [] [] [] [] [] []]; reflexivity.

Lemma phrase_sep_not_word : forall c, implb (is_phrase_sep c) (negb (is_word_char c)) = true.
Proof. ascii_cases. Qed.

Lemma paragraph_sep_not_word : forall c, implb (is_paragraph_sep c) (negb (is_word_char c)) = true.
Proof. ascii_cases. Qed.

Lemma sep_not_word (sep : ascii -> bool) :
  (forall c, implb (sep c) (negb (is_word_char c)) = true) ->
  forall c, sep c = true -> is_word_char c = false.
Proof.
  intros H c Hc. specialize (H c). rewrite Hc in H. destruct (is_word_char c); [discriminate | reflexivity].
Qed.

Lemma phrase_tags_from_strings (b : bool) (k n : nat) (ws : list str) :
  map string (phrase_tags_from b k n ws) = map clean_word ws.
Proof. revert k. induction ws as [|w ws IH]; intros k; simpl; [|rewrite IH]; reflexivity. Qed.

Lemma map_flat_map' {A B C} (f : B -> C) (g : A -> list B) (l : list A) :
  map f (flat_map g l) = flat_map (fun x => map f (g x)) l.
Proof. induction l as [|x l IH]; simpl; [|rewrite map_app, IH]; reflexivity. Qed.

Lemma reader_paragraph_strings (par : str) :
  map string (reader_paragraph par) = map clean_word (findall is_word_char par).
Proof.
  rewrite <- (findall_re_split is_word_char is_phrase_sep par)
    by exact (sep_not_word _ phrase_sep_not_word).
  unfold reader_paragraph.
  destruct (re_split is_phrase_sep par) as [|phr0 rest]; [reflexivity|].
  rewrite map_app, reader_first_phrase_uniform, map_flat_map'. unfold phrase_tags.
  rewrite phrase_tags_from_strings. simpl. rewrite map_app, map_flat_map'. f_equal.
  apply flat_map_ext. intros phr. rewrite reader_next_phrase_uniform. unfold phrase_tags.
  apply phrase_tags_from_strings.
Qed.

Lemma reader_call_strings (text : str) :
  map string (reader_call text) = map clean_word (findall is_word_char (reader_preprocess text)).
Proof.
  unfold reader_call. rewrite map_flat_map'.
  rewrite <- (findall_re_split is_word_char is_paragraph_sep (reader_preprocess text))
    by exact (sep_not_word _ paragraph_sep_not_word).
  rewrite map_flat_map'. apply flat_map_ext. apply reader_paragraph_strings.
Qed.

Lemma lower_char_not_upper : forall c,
  is_upper (if is_upper c then ascii_of_nat (nat_of_ascii c + 32) else c) = false.
Proof. ascii_cases. Qed.

Lemma lower_char_word_char : forall c,
  Bool.eqb (is_word_char (if is_upper c then ascii_of_nat (nat_of_ascii c + 32) else c))
           (is_word_char c) = true.
Proof. ascii_cases. Qed.

Lemma word_prefix_app (w : str) : fst (word_prefix w) ++ snd (word_prefix w) = w.
Proof.
  induction w as [|c w IH]; [reflexivity|]. simpl.
  destruct (is_word c); [|reflexivity].
  destruct (word_prefix w) as [p r]. simpl in *. rewrite IH. reflexivity.
Qed.

Lemma clean_word_chars (w : str) :
  w <> [] -> Forall (fun c => is_word_char c = true) w ->
  clean_word w <> [] /\
  Forall (fun c => is_word_char c = true /\ is_upper c = false) (clean_word w).
Proof.
  intros Hne Hw.
  assert (Hl : lower w <> [] /\
               Forall (fun c => is_word_char c = true /\ is_upper c = false) (lower w)).
  { unfold lower. split; [destruct w; [contradiction | discriminate]|].
    apply List.Forall_map. eapply List.Forall_impl; [|exact Hw].
    intros c Hc. split; [|apply lower_char_not_upper].
    pose proof (lower_char_word_char c) as E. rewrite Hc in E.
    destruct (is_word_char _); [reflexivity | discriminate]. }
  unfold clean_word. pose proof (word_prefix_app (lower w)) as Happ.
  destruct (word_prefix (lower w)) as [[|a g] [|c r]]; try exact Hl.
  destruct (Nat.eqb (nat_of_ascii c) 39); [|exact Hl].
  simpl in Happ. destruct Hl as [_ Hl]. rewrite <- Happ in Hl.
  split; [discriminate|]. change (a :: g ++ c :: r) with ((a :: g) ++ c :: r) in Hl.
  apply Forall_app in Hl. exact (proj1 Hl).
Qed.

Lemma phrase_tags_from_stems (b : bool) (k n : nat) (ws : list str) :
  Forall (fun t => stem t = string t) (phrase_tags_from b k n ws).
Proof.
  revert k. induction ws as [|w ws IH]; intros k; constructor; [|apply IH].
  simpl. unfold str_or. destruct (clean_word w); reflexivity.
Qed.

Lemma reader_stems (text : str) :
  Forall (fun t => stem t = string t) (reader_call text).
Proof.
  unfold reader_call. apply List.Forall_forall. intros t Ht.
  apply in_flat_map in Ht. destruct Ht as (par & _ & Ht).
  unfold reader_paragraph in Ht. destruct (re_split is_phrase_sep par) as [|phr0 rest]; [destruct Ht|].
  rewrite reader_first_phrase_uniform in Ht. apply in_app_or in Ht. destruct Ht as [Ht|Ht].
  - exact (proj1 (List.Forall_forall _ _) (phrase_tags_from_stems _ _ _ _) t Ht).
  - apply in_flat_map in Ht. destruct Ht as (phr & _ & Ht).
    rewrite reader_next_phrase_uniform in Ht.
    exact (proj1 (List.Forall_forall _ _) (phrase_tags_from_stems _ _ _ _) t Ht).
Qed.

(** [Reader.__call__]: every tag's string is non-empty (a word found by
    [match_words] keeps at least its first character through
    [Reader.clean_word]), and its stem is its string. *)
Theorem reader_tags_nonempty (text : str) (t : Tag) :
  In t (reader_call text) -> string t <> [] /\ stem t = string t.
Proof.
  intros Ht.
  assert (Hs : In (string t) (map string (reader_call text))) by (apply in_map, Ht).
  rewrite reader_call_strings in Hs. apply in_map_iff in Hs.
  destruct Hs as (w & Ew & Hw). apply findall_words in Hw. destruct Hw as [Hne Hw].
  destruct (clean_word_chars w Hne Hw) as [H1 _]. rewrite Ew in H1.
  split; [exact H1|].
  exact (proj1 (List.Forall_forall _ _) (reader_stems text) t Ht).
Qed.

(** [Reader.__call__]: splitting the text into paragraphs and phrases
    neither loses nor merges words; the tag strings are the cleaned words of
    the whole (preprocessed) text, in order. *)
Theorem reader_strings_are_cleaned_words (text : str) :
  map string (reader_call text) = map clean_word (findall is_word_char (reader_preprocess text)).
Proof. apply reader_call_strings. Qed.




(** ** [Stemmer.preprocess] *)

Lemma hyphen_word_underscore : forall c,
  implb (char_in [45; 95] c && is_word c) (Ascii.eqb c "_"%char) = true.
Proof. ascii_cases. Qed.

Lemma hyphen_not_word : forall c,
  implb (char_in [45] c) (negb (is_word c)) = true.
Proof. ascii_cases. Qed.

Lemma strip_hyphens_word (prev : option ascii) (w rest : str) :
  w <> [] -> Forall (fun c => is_word c = true) w ->
  (w <> ["_"%char] \/ word_at prev = true) ->
  strip_hyphens prev (w ++ rest) = w ++ strip_hyphens (Some (List.last w "_"%char)) rest.
Proof.
  revert prev. induction w as [|c w IH]; intros prev Hne Hw Hu; [congruence|].
  apply List.Forall_cons_iff in Hw. destruct Hw as [Hc Hw].
  destruct w as [|d w].
  - cbn [app strip_hyphens List.last]. f_equal.
    destruct (char_in [45; 95] c) eqn:Ec; [|reflexivity].
    pose proof (hyphen_word_underscore c) as Eu. rewrite Ec, Hc in Eu.
    apply Ascii.eqb_eq in Eu. subst c.
    destruct Hu as [Hu|Hu]; [congruence|]. rewrite Hu. reflexivity.
  - change ((c :: d :: w) ++ rest) with (c :: ((d :: w) ++ rest)).
    cbn [strip_hyphens]. apply List.Forall_cons_iff in Hw as Hd. destruct Hd as [Hd _].
    cbn [head app word_at]. rewrite Hc, Hd. rewrite !andb_false_r. cbn [app].
    f_equal. rewrite IH by (discriminate || exact Hw || (right; exact Hc)). reflexivity.
Qed.

Lemma strip_hyphens_join (prev : option ascii) (ws : list str) :
  Forall (fun w => w <> [] /\ w <> ["_"%char] /\ Forall (fun c => is_word c = true) w) ws ->
  strip_hyphens prev (join_with "-"%char ws) = concat ws.
Proof.
  revert prev. induction ws as [|w ws IH]; intros prev H; [reflexivity|].
  apply List.Forall_cons_iff in H. destruct H as [(Hne & Hu & Hw) H].
  destruct ws as [|w2 ws].
  - cbn [join_with concat]. rewrite <- (app_nil_r w) at 1.
    rewrite strip_hyphens_word by auto. rewrite !app_nil_r. reflexivity.
  - change (join_with "-"%char (w :: w2 :: ws)) with (w ++ ["-"%char] ++ join_with "-"%char (w2 :: ws)).
    rewrite strip_hyphens_word by auto.
    change (concat (w :: w2 :: ws)) with (w ++ concat (w2 :: ws)). f_equal.
    apply List.Forall_cons_iff in H as H2. destruct H2 as [(Hne2 & _ & Hw2) _].
    destruct w2 as [|d w2]; [congruence|]. apply List.Forall_cons_iff in Hw2. destruct Hw2 as [Hd _].
    assert (Hl : is_word (List.last w "_"%char) = true).
    { destruct w as [|a w] using rev_ind; [congruence|]. rewrite List.last_last.
      apply Forall_app in Hw. destruct Hw as [_ Hw]. inversion Hw. assumption. }
    assert (Hj : exists r, join_with "-"%char (@cons str (d :: w2) ws) = d :: r)
      by (destruct ws; eexists; reflexivity).
    destruct Hj as [r Hj]. cbn [app strip_hyphens]. rewrite Hj.
    cbn -[strip_hyphens is_word List.last]. rewrite Hl, Hd. cbn -[strip_hyphens].
    rewrite <- Hj. apply IH. exact H.
Qed.

Lemma strip_hyphens_others (prev : option ascii) (s : str) :
  List.filter (fun c => negb (char_in [45; 95] c)) (strip_hyphens prev s)
  = List.filter (fun c => negb (char_in [45; 95] c)) s /\
  strip_hyphens prev s `sublist_of` s.
Proof.
  revert prev. induction s as [|c s IH]; intros prev; [split; [reflexivity | constructor]|].
  cbn [strip_hyphens]. destruct (IH (Some c)) as [IH1 IH2].
  destruct (char_in [45; 95] c) eqn:Ec; cbn [andb].
  - destruct (_ && _); cbn [app]; rewrite ?List.filter_app; cbn [List.filter]; rewrite Ec; cbn [negb].
    + split; [exact IH1 | apply sublist_cons, IH2].
    + split; [exact IH1 | apply sublist_skip, IH2].
  - cbn [app List.filter]. rewrite Ec. cbn [negb]. split; [f_equal; exact IH1 | apply sublist_skip, IH2].
Qed.

(** [Stemmer.preprocess] deletes the hyphens of a hyphenated compound: for
    words of [\w] characters (none empty, none a lone underscore), the
    [-]-join of the words becomes their concatenation; underscores inside
    the words are kept. *)
Theorem stemmer_preprocess_hyphen_join (ws : list str) :
  Forall (fun w => w <> [] /\ w <> ["_"%char] /\ Forall (fun c => is_word c = true) w) ws ->
  stemmer_preprocess (join_with "-"%char ws) = concat ws.
Proof. apply strip_hyphens_join. Qed.

Lemma stemmer_preprocess_hyphen_join_witness :
  stemmer_preprocess (join_with "-"%char [lit "e"; lit "mail_box"]) = lit "email_box".
Proof. apply (stemmer_preprocess_hyphen_join [lit "e"; lit "mail_box"]).
  apply (bool_decide_unpack _). vm_compute. exact I.
Defined.

(** [Stemmer.preprocess] only deletes characters, and only hyphens and
    underscores: its result is a subsequence of its input, and the two have
    the same characters other than [-] and [_], in the same order. *)
Theorem stemmer_preprocess_deletes_hyphens (s : str) :
  List.filter (fun c => negb (char_in [45; 95] c)) (stemmer_preprocess s)
  = List.filter (fun c => negb (char_in [45; 95] c)) s /\
  stemmer_preprocess s `sublist_of` s.
Proof. apply strip_hyphens_others. Qed.

Lemma strip_hyphens_cons (prev : option ascii) (c : ascii) (s : str) :
  strip_hyphens prev (c :: s) =
  (if char_in [45; 95] c && xorb (word_at prev) (is_word c) && xorb (is_word c) (word_at (head s))
   then [] else [c]) ++ strip_hyphens (Some c) s.
Proof. reflexivity. Qed.

Lemma strip_keep (prev : option ascii) (d : ascii) (s : str) :
  word_at prev = is_word d -> strip_hyphens prev (d :: s) = d :: strip_hyphens (Some d) s.
Proof. intros H. rewrite strip_hyphens_cons, H, xorb_nilpotent, andb_false_r. reflexivity. Qed.

Lemma hyphen_cases : forall c,
  implb (char_in [45; 95] c) (Ascii.eqb c "-"%char || Ascii.eqb c "_"%char) = true.
Proof. ascii_cases. Qed.

Lemma strip_dash (prev : option ascii) (s : str) :
  strip_hyphens prev ("-"%char :: s)
  = (if word_at prev && word_at (head s) then [] else ["-"%char]) ++ strip_hyphens (Some "-"%char) s.
Proof. rewrite strip_hyphens_cons. destruct (word_at prev), (word_at (head s)); reflexivity. Qed.

Lemma strip_underscore (prev : option ascii) (s : str) :
  strip_hyphens prev ("_"%char :: s)
  = (if negb (word_at prev) && negb (word_at (head s)) then [] else ["_"%char])
    ++ strip_hyphens (Some "_"%char) s.
Proof. rewrite strip_hyphens_cons. destruct (word_at prev), (word_at (head s)); reflexivity. Qed.

Lemma strip_hyphens_stable (s : str) : forall p q,
  (forall s', s = "-"%char :: s' -> word_at p = false -> q = p) ->
  (forall s', s = "_"%char :: s' -> word_at p = true -> q = p) ->
  strip_hyphens q (strip_hyphens p s) = strip_hyphens p s.
Proof.
  induction s as [|c s IH]; intros p q H1 H2; [reflexivity|].
  assert (Hsame : strip_hyphens (Some c) (strip_hyphens (Some c) s) = strip_hyphens (Some c) s)
    by (apply IH; intros; reflexivity).
  destruct (char_in [45; 95] c) eqn:Ehy.
  2: { rewrite (strip_hyphens_cons p c s), Ehy. cbn [andb app].
       rewrite strip_hyphens_cons, Ehy. cbn [andb app]. rewrite Hsame. reflexivity. }
  pose proof (hyphen_cases c) as Hc. rewrite Ehy in Hc. cbn [implb] in Hc.
  apply orb_true_iff in Hc. destruct Hc as [Hc|Hc]; apply Ascii.eqb_eq in Hc; subst c.
  - specialize (H1 s eq_refl). rewrite strip_dash. destruct (word_at p) eqn:Ep.
    + destruct s as [|d s'].
      * cbn [head word_at andb app]. rewrite strip_dash. cbn [head word_at]. rewrite andb_false_r.
        reflexivity.
      * cbn [head word_at]. destruct (is_word d) eqn:Ed; cbn [andb app].
        -- apply IH.
           ++ intros s'' Hs _. injection Hs as -> _. discriminate.
           ++ intros s'' _ Hw. discriminate.
        -- rewrite (strip_keep (Some "-"%char) d s') by (rewrite Ed; reflexivity).
           rewrite strip_dash. cbn [head word_at]. rewrite Ed, andb_false_r. cbn [app].
           rewrite <- (strip_keep (Some "-"%char) d s') by (rewrite Ed; reflexivity).
           first [exact Hsame | f_equal; exact Hsame].
    + rewrite (H1 eq_refl). cbn [andb app]. rewrite strip_dash, Ep. cbn [andb app]. first [exact Hsame | f_equal; exact Hsame].
  - specialize (H2 s eq_refl). rewrite strip_underscore. destruct (word_at p) eqn:Ep.
    + rewrite (H2 eq_refl). cbn [negb andb app]. rewrite strip_underscore, Ep. cbn [negb andb app].
      first [exact Hsame | f_equal; exact Hsame].
    + destruct s as [|d s'].
      * reflexivity.
      * cbn [head word_at negb andb]. destruct (is_word d) eqn:Ed; cbn [negb app].
        -- rewrite (strip_keep (Some "_"%char) d s') by (rewrite Ed; reflexivity).
           rewrite strip_underscore. cbn [head word_at]. rewrite Ed, andb_false_r. cbn [app].
           rewrite <- (strip_keep (Some "_"%char) d s') by (rewrite Ed; reflexivity).
           first [exact Hsame | f_equal; exact Hsame].
        -- apply IH.
           ++ intros s'' _ Hw. discriminate.
           ++ intros s'' Hs _. injection Hs as -> _. discriminate.
Qed.

(** [Stemmer.preprocess] is idempotent: a second pass deletes nothing
    more. *)
Theorem stemmer_preprocess_idempotent (s : str) :
  stemmer_preprocess (stemmer_preprocess s) = stemmer_preprocess s.
Proof. unfold stemmer_preprocess. apply strip_hyphens_stable; reflexivity. Qed.

(** ** The output of [Rater.__call__] *)

Lemma c4_run_order (so : list MultiTag -> list MultiTag) :
  rater_call so (rater_new ∅ 1) c4_tags = Some (py_sorted (so c4_ms)).
Proof.
  unfold rater_call. rewrite c4_rate. cbn [mbind option_bind].
  rewrite c4_create, c4_canon. cbn [mbind option_bind]. rewrite c4_prune. cbn [mbind option_bind].
  rewrite c4_base, filter_nodisc. reflexivity.
Qed.

Definition tc_stems (c : list (MultiTag * nat)) : list str := map (fun kn => mstem (fst kn)) c.

Lemma counter_add_tc_stems (m : MultiTag) (c : list (MultiTag * nat)) :
  tc_stems (counter_add m c)
  = if existsb (fun kn => str_eqb (mstem (fst kn)) (mstem m)) c then tc_stems c
    else tc_stems c ++ [mstem m].
Proof.
  unfold tc_stems. induction c as [|[k n] c IH]; [reflexivity|].
  cbn [counter_add existsb fst]. destruct (str_eqb (mstem k) (mstem m)); [reflexivity|].
  cbn [map fst orb]. rewrite IH. destruct (existsb _ c); reflexivity.
Qed.

Lemma counter_add_nodup (m : MultiTag) (c : list (MultiTag * nat)) :
  List.NoDup (tc_stems c) -> List.NoDup (tc_stems (counter_add m c)).
Proof.
  intros H. rewrite counter_add_tc_stems.
  destruct (existsb _ c) eqn:E; [exact H|].
  apply (Permutation_NoDup (Permutation_cons_append (tc_stems c) (mstem m))).
  constructor; [|exact H]. intros Hin. unfold tc_stems in Hin.
  apply in_map_iff in Hin. destruct Hin as (kn & Ek & Hkn).
  assert (Ht : existsb (fun kn => str_eqb (mstem (fst kn)) (mstem m)) c = true).
  { apply existsb_exists. exists kn. split; [exact Hkn|]. rewrite Ek.
    unfold str_eqb. apply bool_decide_eq_true. reflexivity. }
  congruence.
Qed.

Lemma term_count_nodup (ms : list MultiTag) : List.NoDup (tc_stems (term_count_of ms)).
Proof.
  unfold term_count_of. assert (H : List.NoDup (tc_stems [])) by constructor.
  revert H. generalize (@nil (MultiTag * nat)). induction ms as [|m ms IH]; intros c H; [exact H|].
  cbn [fold_left]. apply IH, counter_add_nodup, H.
Qed.

Lemma Forall2_map_eq {A B C} (f : A -> C) (g : B -> C) (l : list A) (k : list B) :
  Forall2 (fun x y => g y = f x) l k -> map g k = map f l.
Proof. intros H. induction H as [|x y l k Hxy _ IH]; [reflexivity|]. cbn. rewrite Hxy, IH. reflexivity. Qed.

Lemma nodup_map_filter {A B} (f : A -> B) (p : A -> bool) (l : list A) :
  List.NoDup (map f l) -> List.NoDup (map f (List.filter p l)).
Proof.
  induction l as [|x l IH]; intros H; [constructor|].
  cbn [map] in H. inversion H as [|y k Hy Hk]; subst. cbn [List.filter].
  destruct (p x); [|apply IH, Hk]. cbn [map]. constructor; [|apply IH, Hk].
  intros Hin. apply in_map_iff in Hin. destruct Hin as (z & Ez & Hz).
  apply filter_In in Hz. apply Hy. rewrite <- Ez. apply in_map, Hz.
Qed.

(** Each output element comes from a key of [term_count] that passes the
    filter of [unique_tags]. *)
Lemma rater_output_origin (set_order : list MultiTag -> list MultiTag) (r : Rater)
    (tags : list Tag) (res : list MultiTag)
    (Hperm : forall l, Permutation (set_order l) l) :
  rater_call set_order r tags = Some res ->
  exists ts tc, rate_tags r tags = Some ts /\
    canonicalize (create_multitags r ts) (term_count_of (create_multitags r ts)) = Some tc /\
    List.NoDup (map mstem res) /\
    forall x, In x res -> exists cnt, In (x, cnt) tc /\
      1 < length (string (base x)) /\ (0 < rating (base x))%R.
Proof.
  intros H. apply rater_call_unfold in H. destruct H as (ts & tc & disc & E1 & E2 & E3 & ->).
  exists ts, tc. split; [exact E1|]. split; [exact E2|]. split.
  - apply (Permutation_NoDup (Permutation_map mstem (Permutation_sym (py_sorted_perm _)))).
    apply nodup_map_filter.
    apply (Permutation_NoDup (Permutation_map mstem (Permutation_sym (Hperm _)))).
    unfold base_filter. rewrite map_map. apply nodup_map_filter.
    change (List.NoDup (tc_stems tc)).
    unfold tc_stems. erewrite Forall2_map_eq.
    + apply term_count_nodup.
    + eapply Forall2_impl; [exact (canonicalize_stems _ _ _ E2)|]. intros x y [_ Hxy]. exact Hxy.
  - intros x Hx. apply in_result_not_discarded in Hx. destruct Hx as [Hx _].
    apply (Permutation_in _ (Hperm _)) in Hx. unfold base_filter in Hx.
    apply in_map_iff in Hx. destruct Hx as ([k cnt] & Ek & Hk). cbn [fst] in Ek. subst k.
    apply filter_In in Hk. destruct Hk as [Hk Hf]. cbn [fst] in Hf.
    apply andb_prop in Hf. destruct Hf as [Hf1 Hf2].
    exists cnt. split; [exact Hk|]. split; [apply Nat.ltb_lt, Hf1 | apply Rltb_iff, Hf2].
Qed.

Lemma canonicalize_fields (ms : list MultiTag) (tc0 tc : list (MultiTag * nat)) :
  canonicalize ms tc0 = Some tc ->
  Forall2 (fun x y => size (fst y) = size (fst x) /\
                      (rating (base (fst y)) = rating (base (fst x))
                       \/ rating (base (fst y)) = ratings_max ms (mstem (fst x)))) tc0 tc.
Proof.
  intros H. apply mapM_Some_1 in H. eapply Forall2_impl; [exact H|].
  intros [t0 c0] [t c] Hxy. cbv beta iota zeta in Hxy.
  destruct (py_div_nat _ _); simpl in Hxy; [|discriminate].
  destruct (Qle_bool _ _); injection Hxy as <- <-; (split; [reflexivity|]); cbn; auto.
Qed.

(** The key of [term_count] behind a counted multitag: a generated multitag. *)
Lemma canonical_key (r : Rater) (ts : list Tag) (tc : list (MultiTag * nat))
    (Hc : canonicalize (create_multitags r ts) (term_count_of (create_multitags r ts)) = Some tc)
    (x : MultiTag) (cnt : nat) :
  In (x, cnt) tc -> exists k, In k (create_multitags r ts) /\ size x = size k /\
    (rating (base x) = rating (base k)
     \/ rating (base x) = ratings_max (create_multitags r ts) (mstem k)).
Proof.
  intros Hin. destruct (Forall2_in_r _ _ _ _ (canonicalize_fields _ _ _ Hc) Hin)
    as ([k c0] & Hk & Hs & Hr).
  destruct (term_count_of_spec (create_multitags r ts)) as (_ & Hkeys & _).
  exists k. split; [exact (Hkeys k c0 Hk)|]. split; [exact Hs | exact Hr].
Qed.

Lemma create_multitags_size (r : Rater) (ts : list Tag) (k : MultiTag) :
  In k (create_multitags r ts) ->
  1 <= size k /\ (Z.of_nat (size k) <= Z.max 1 (multitag_size r))%Z.
Proof.
  intros Hk. apply create_multitags_spec in Hk.
  destruct Hk as (i & n & Hn & Hi & Hmax & -> & _).
  assert (Hl := length_segment ts i n Hi).
  destruct (segment ts i n) as [|u us] eqn:Es; [simpl in Hl; lia|].
  destruct (build_chain_fields u us) as (_ & _ & _ & _ & Hsz & _).
  cbv zeta in Hsz. rewrite Hsz, Hl. lia.
Qed.

(** [Rater.__call__] returns at most one multitag per stem: the stems of
    its output are pairwise distinct. *)
Theorem rater_output_unique_stems (set_order : list MultiTag -> list MultiTag) (r : Rater)
    (tags : list Tag) (res : list MultiTag)
    (Hperm : forall l, Permutation (set_order l) l) :
  rater_call set_order r tags = Some res -> List.NoDup (map mstem res).
Proof.
  intros H. destruct (rater_output_origin set_order r tags res Hperm H) as (_ & _ & _ & _ & Hnd & _).
  exact Hnd.
Qed.

Lemma rater_output_unique_stems_witness :
  List.NoDup (map mstem (py_sorted c4_ms)).
Proof.
  apply (rater_output_unique_stems (fun l => l) (rater_new ∅ 1) c4_tags);
    [intros l; reflexivity | apply c4_run_order].
Defined.

(** Every multitag [Rater.__call__] returns has a string of at least two
    characters, a positive rating, and between 1 and
    [max(1, multitag_size)] components. *)
Theorem rater_output_elements (set_order : list MultiTag -> list MultiTag) (r : Rater)
    (tags : list Tag) (res : list MultiTag)
    (Hperm : forall l, Permutation (set_order l) l) :
  rater_call set_order r tags = Some res ->
  Forall (fun x => 1 < length (string (base x)) /\ (0 < rating (base x))%R /\
                   1 <= size x /\ (Z.of_nat (size x) <= Z.max 1 (multitag_size r))%Z) res.
Proof.
  intros H. destruct (rater_output_origin set_order r tags res Hperm H) as (ts & tc & _ & Hc & _ & Hx).
  apply List.Forall_forall. intros x Hin. destruct (Hx x Hin) as (cnt & Hk & Hlen & Hpos).
  destruct (canonical_key r ts tc Hc x cnt Hk) as (k & Hkm & Hs & _).
  rewrite Hs. split; [exact Hlen|]. split; [exact Hpos|]. exact (create_multitags_size r ts k Hkm).
Qed.

Lemma rater_output_elements_witness :
  Forall (fun x => 1 < length (string (base x)) /\ (0 < rating (base x))%R /\
                   1 <= size x /\ (Z.of_nat (size x) <= Z.max 1 (multitag_size (rater_new ∅ 1)))%Z)
         (py_sorted c4_ms).
Proof.
  apply (rater_output_elements (fun l => l) (rater_new ∅ 1) c4_tags);
    [intros l; reflexivity | apply c4_run_order].
Defined.

(** ** Ratings in the interval [0, 1] *)

Definition unit_interval (x : R) : Prop := (0 <= x <= 1)%R.

Lemma py_pow_unit (x y : R) : unit_interval x -> (0 <= y)%R -> unit_interval (py_pow x y).
Proof.
  unfold unit_interval. intros Hx Hy. unfold py_pow. destruct (Req_EM_T x 0); [lra|].
  split; [left; unfold Rpower; apply exp_pos|].
  apply (Rle_trans _ (Rpower 1 y)); [apply Rle_Rpower_l; lra|].
  right. unfold Rpower. rewrite ln_1, Rmult_0_r. apply exp_0.
Qed.

Lemma unit_mul (a b : R) : unit_interval a -> unit_interval b -> unit_interval (a * b).
Proof. unfold unit_interval. intros Ha Hb. split; nra. Qed.

Lemma div_INR_nonneg (n : nat) : (0 <= 1 / INR n)%R.
Proof.
  destruct n as [|n].
  - cbn [INR]. unfold Rdiv. rewrite Rinv_0. lra.
  - unfold Rdiv. apply Rmult_le_pos; [lra|]. left. apply Rinv_0_lt_compat, lt_0_INR. lia.
Qed.

Lemma fold_mul_unit (l : list R) (a : R) :
  Forall unit_interval l -> unit_interval a -> unit_interval (fold_left Rmult l a).
Proof.
  unfold unit_interval. revert a. induction l as [|x l IH]; intros a Hl Ha; [exact Ha|].
  inversion Hl as [|y k Hx Hk]; subst. cbn [fold_left]. apply IH; [exact Hk|]. split; nra.
Qed.

Lemma combined_rating_unit (m : MultiTag) :
  Forall unit_interval (subratings m) -> unit_interval (combined_rating m).
Proof.
  intros Hs. unfold combined_rating.
  destruct (Reqb _ _ && _).
  - destruct (length _ =? 0); [unfold unit_interval; lra|].
    apply py_pow_unit; [|apply div_INR_nonneg]. unfold reduce_mul. apply fold_mul_unit.
    + apply List.Forall_forall. intros x Hx. apply filter_In in Hx.
      exact (proj1 (List.Forall_forall _ _) Hs x (proj1 Hx)).
    + unfold unit_interval. lra.
  - apply py_pow_unit; [|apply div_INR_nonneg]. unfold reduce_mul. apply fold_mul_unit; [exact Hs|].
    unfold unit_interval. lra.
Qed.

Lemma build_chain_unit (u : Tag) (us : list Tag) :
  Forall (fun t => unit_interval (rating t)) (u :: us) ->
  unit_interval (rating (base (build_chain (u :: us)))).
Proof.
  intros H. destruct us as [|v us].
  - inversion H. assumption.
  - rewrite build_chain_rating by discriminate. apply combined_rating_unit.
    destruct (build_chain_fields u (v :: us)) as (_ & _ & _ & _ & _ & Hs).
    cbv zeta in Hs. rewrite Hs. apply List.Forall_map. exact H.
Qed.

Lemma count_stem_le (s : str) (tags : list Tag) : count_stem s tags <= length tags.
Proof.
  unfold count_stem. induction tags as [|t tags IH]; [reflexivity|].
  cbn [List.filter length]. destruct (str_eqb _ _); cbn [length]; lia.
Qed.

Lemma rate_tags_unit (r : Rater) (tags ts : list Tag) :
  (forall k v, weights r !! k = Some v -> unit_interval v) ->
  rate_tags r tags = Some ts -> Forall (fun t => unit_interval (rating t)) ts.
Proof.
  intros Hw H. apply mapM_Some_1 in H. apply List.Forall_forall. intros y Hy.
  destruct (Forall2_in_r _ _ _ _ H Hy) as (x & _ & Hxy). cbv beta in Hxy.
  unfold py_div_int in Hxy. destruct (length tags =? 0) eqn:E0; [discriminate|].
  cbn in Hxy. injection Hxy as <-. cbn [rating].
  apply Nat.eqb_neq in E0.
  assert (Htf : unit_interval (1 * INR (count_stem (stem x) tags) / INR (length tags))%R).
  { assert (Hc := count_stem_le (stem x) tags). apply le_INR in Hc.
    assert (Hp : (0 < INR (length tags))%R) by (apply lt_0_INR; lia).
    assert (H0 := pos_INR (count_stem (stem x) tags)).
    unfold unit_interval. rewrite Rmult_1_l. split.
    - unfold Rdiv. apply Rmult_le_pos; [exact H0|]. left. apply Rinv_0_lt_compat, Hp.
    - apply (Rmult_le_reg_r (INR (length tags))); [exact Hp|].
      unfold Rdiv. rewrite Rmult_assoc, Rinv_l by lra. lra. }
  assert (Hd : unit_interval (default 1%R (weights r !! stem x))).
  { destruct (weights r !! stem x) as [v|] eqn:Ev; cbn; [exact (Hw _ _ Ev)|].
    unfold unit_interval. lra. }
  exact (unit_mul _ _ Htf Hd).
Qed.

Lemma create_multitags_unit (r : Rater) (ts : list Tag) :
  Forall (fun t => unit_interval (rating t)) ts ->
  Forall (fun m => unit_interval (rating (base m))) (create_multitags r ts).
Proof.
  intros Hts. apply List.Forall_forall. intros k Hk. apply create_multitags_spec in Hk.
  destruct Hk as (i & n & Hn & Hi & _ & -> & _).
  assert (Hl := length_segment ts i n Hi).
  assert (Hsub : Forall (fun t => unit_interval (rating t)) (segment ts i n)).
  { apply List.Forall_forall. intros z Hz. unfold segment in Hz.
    apply in_firstn', in_skipn' in Hz. exact (proj1 (List.Forall_forall _ _) Hts z Hz). }
  destruct (segment ts i n) as [|u us]; [simpl in Hl; lia|].
  apply build_chain_unit, Hsub.
Qed.

Lemma ratings_max_unit (ms : list MultiTag) (s : str) :
  Forall (fun m => unit_interval (rating (base m))) ms -> unit_interval (ratings_max ms s).
Proof.
  unfold ratings_max. assert (H0 : unit_interval 0%R) by (unfold unit_interval; lra).
  revert H0. generalize 0%R. induction ms as [|m ms IH]; intros a Ha Hms; [exact Ha|].
  inversion Hms as [|y k Hm Hk]; subst. cbn [fold_left]. apply IH; [|exact Hk].
  destruct (_ && _); [|exact Ha]. unfold unit_interval in *. split.
  - eapply Rle_trans; [apply Ha | apply Rmax_l].
  - apply Rmax_lub; [apply Ha | apply Hm].
Qed.

(** With every weight in [0, 1] (as the documentation of [Rater.__init__]
    asks), every multitag [Rater.__call__] returns has a rating in (0, 1]. *)
Theorem rater_output_ratings_unit (set_order : list MultiTag -> list MultiTag) (r : Rater)
    (tags : list Tag) (res : list MultiTag)
    (Hperm : forall l, Permutation (set_order l) l)
    (Hw : forall k v, weights r !! k = Some v -> (0 <= v <= 1)%R) :
  rater_call set_order r tags = Some res ->
  Forall (fun x => (0 < rating (base x) <= 1)%R) res.
Proof.
  intros H. destruct (rater_output_origin set_order r tags res Hperm H)
    as (ts & tc & Ets & Hc & _ & Hx).
  assert (Hts := rate_tags_unit r tags ts Hw Ets).
  assert (Hms := create_multitags_unit r ts Hts).
  apply List.Forall_forall. intros x Hin. destruct (Hx x Hin) as (cnt & Hk & _ & Hpos).
  destruct (canonical_key r ts tc Hc x cnt Hk) as (k & Hkm & _ & Hr).
  split; [exact Hpos|].
  destruct Hr as [Hr|Hr]; rewrite Hr.
  - exact (proj2 (proj1 (List.Forall_forall _ _) Hms k Hkm)).
  - exact (proj2 (ratings_max_unit _ _ Hms)).
Qed.

Lemma rater_output_ratings_unit_witness :
  Forall (fun x => (0 < rating (base x) <= 1)%R) (py_sorted c4_ms).
Proof.
  apply (rater_output_ratings_unit (fun l => l) (rater_new ∅ 1) c4_tags).
  - intros l. reflexivity.
  - intros k v Hv. cbn [weights] in Hv. change ((∅ : gmap str R) !! k) with (@None R) in Hv.
    discriminate.
  - apply c4_run_order.
Defined.

(** ** [Tagger.__call__] and the language taggers *)

Lemma c4_text : map (stemmer_call (fun s => s)) (reader_call (lit "ab. cd")) = c4_tags.
Proof. reflexivity. Qed.

Lemma c4_tagger (so : list MultiTag -> list MultiTag) (n : Z) :
  tagger_call so (fun s => s) (rater_new ∅ 1) (lit "ab. cd") n = Some (py_slice_to (py_sorted (so c4_ms)) n).
Proof. unfold tagger_call. rewrite c4_text, c4_run_order. reflexivity. Qed.

Lemma tagger_call_unfold (so : list MultiTag -> list MultiTag) (stem_fn : str -> str) (r : Rater)
    (text : str) (n : Z) (res : list MultiTag) :
  tagger_call so stem_fn r text n = Some res ->
  exists full, rater_call so r (map (stemmer_call stem_fn) (reader_call text)) = Some full /\
               res = py_slice_to full n.
Proof.
  unfold tagger_call. destruct (rater_call _ _ _) as [full|]; cbn; [|discriminate].
  intros H. injection H as <-. exists full. split; reflexivity.
Qed.

Lemma StronglySorted_app_rel {A} (P : A -> A -> Prop) (l1 l2 : list A) :
  StronglySorted P (l1 ++ l2) -> Forall (fun y => Forall (fun x => P x y) l1) l2.
Proof.
  induction l1 as [|x l1 IH]; intros H.
  - apply List.Forall_forall. intros y _. constructor.
  - inversion H as [|a l Hs Hx]; subst. specialize (IH Hs).
    apply List.Forall_forall. intros y Hy. constructor.
    + exact (proj1 (List.Forall_forall _ _) Hx y (in_or_app _ _ _ (or_intror Hy))).
    + exact (proj1 (List.Forall_forall _ _) IH y Hy).
Qed.

Lemma StronglySorted_app_l {A} (P : A -> A -> Prop) (l1 l2 : list A) :
  StronglySorted P (l1 ++ l2) -> StronglySorted P l1.
Proof.
  induction l1 as [|x l1 IH]; intros H; [constructor|].
  inversion H as [|a l Hs Hx]; subst. constructor; [exact (IH Hs)|].
  apply List.Forall_forall. intros y Hy.
  exact (proj1 (List.Forall_forall _ _) Hx y (in_or_app _ _ _ (or_introl Hy))).
Qed.

Lemma rating_ge_trans : Relations_1.Transitive rating_ge.
Proof. unfold Relations_1.Transitive, rating_ge. intros x y z H1 H2. lra. Qed.

(** [Tagger.__call__] returns the best tags: its result is a prefix of the
    Rater's (sorted) output, of length [min(n, len)] for [tags_number = n >= 0]
    and [len - |n|] (floored at 0) for a negative [n], sorted by rating, and
    no tag it leaves out has a higher rating than one it returns. *)
Theorem tagger_returns_best_tags (so : list MultiTag -> list MultiTag) (stem_fn : str -> str)
    (r : Rater) (text : str) (n : Z) (res : list MultiTag) :
  tagger_call so stem_fn r text n = Some res ->
  exists rest,
    rater_call so r (map (stemmer_call stem_fn) (reader_call text)) = Some (res ++ rest) /\
    length res = (if (0 <=? n)%Z then Nat.min (Z.to_nat n) (length (res ++ rest))
                  else length (res ++ rest) - Z.to_nat (- n)) /\
    Sorted rating_ge res /\
    Forall (fun y => Forall (fun x => (rating (base y) <= rating (base x))%R) res) rest.
Proof.
  intros H. apply tagger_call_unfold in H. destruct H as (full & Hr & ->).
  assert (Hs : Sorted rating_ge full).
  { apply rater_call_unfold in Hr. destruct Hr as (ts & tc & disc & _ & _ & _ & Ef). rewrite Ef. apply py_sorted_sorted. }
  set (k := if (0 <=? n)%Z then Z.to_nat n else Z.to_nat (Z.of_nat (length full) + n)).
  assert (Ek : py_slice_to full n = firstn k full) by (unfold py_slice_to, k; destruct (0 <=? n)%Z; reflexivity).
  rewrite Ek. exists (skipn k full). rewrite firstn_skipn. split; [exact Hr|].
  apply Sorted_StronglySorted in Hs; [|exact rating_ge_trans].
  rewrite <- (firstn_skipn k full) in Hs.
  split; [|split].
  - rewrite length_firstn. unfold k. destruct (0 <=? n)%Z eqn:En; [lia|].
    apply Z.leb_gt in En. lia.
  - apply StronglySorted_Sorted. exact (StronglySorted_app_l _ _ _ Hs).
  - exact (StronglySorted_app_rel _ _ _ Hs).
Qed.

Lemma tagger_returns_best_tags_witness :
  exists rest,
    rater_call (fun l => l) (rater_new ∅ 1)
      (map (stemmer_call (fun s => s)) (reader_call (lit "ab. cd")))
    = Some (py_slice_to (py_sorted c4_ms) 1 ++ rest) /\
    length (py_slice_to (py_sorted c4_ms) 1)
    = (if (0 <=? 1)%Z then Nat.min (Z.to_nat 1) (length (py_slice_to (py_sorted c4_ms) 1 ++ rest))
       else length (py_slice_to (py_sorted c4_ms) 1 ++ rest) - Z.to_nat (- 1)) /\
    Sorted rating_ge (py_slice_to (py_sorted c4_ms) 1) /\
    Forall (fun y => Forall (fun x => (rating (base y) <= rating (base x))%R)
                            (py_slice_to (py_sorted c4_ms) 1)) rest.
Proof. apply tagger_returns_best_tags. apply (c4_tagger (fun l => l)). Defined.

Lemma firstn_nodup {A} (k : nat) (l : list A) : List.NoDup l -> List.NoDup (firstn k l).
Proof. intros H. rewrite <- (firstn_skipn k l) in H. exact (NoDup_app_remove_r _ _ H). Qed.

(** [EnglishTagger] and [SpanishTagger] built from a dictionary alone:
    their rater has multitag size 1, so every tag they return is a single
    word (a multitag of one component), and no two share a stem. *)
Theorem language_tagger_single_words (so : list MultiTag -> list MultiTag)
    (stem_fn : str -> str) (dictionary : gmap str R) (r : Rater) (text : str) (n : Z)
    (res : list MultiTag)
    (Hperm : forall l, Permutation (so l) l) :
  language_tagger_rater None (Some dictionary) = Some r ->
  tagger_call so stem_fn r text n = Some res ->
  Forall (fun x => size x = 1) res /\ List.NoDup (map mstem res).
Proof.
  intros Hr H. cbn in Hr. injection Hr as <-.
  apply tagger_call_unfold in H. destruct H as (full & Hf & ->).
  destruct (rater_output_origin so _ _ full Hperm Hf) as (ts & tc & _ & Hc & Hnd & Hx).
  assert (Ek : exists k, py_slice_to full n = firstn k full)
    by (unfold py_slice_to; destruct (0 <=? n)%Z; eexists; reflexivity).
  destruct Ek as [k ->]. split.
  - apply List.Forall_forall. intros x Hin. apply in_firstn' in Hin.
    destruct (Hx x Hin) as (cnt & Hk & _).
    destruct (canonical_key _ ts tc Hc x cnt Hk) as (m & Hm & Hs & _).
    destruct (create_multitags_size _ ts m Hm) as [H1 H2]. cbn [multitag_size rater_new] in H2. lia.
  - rewrite <- firstn_map. apply firstn_nodup, Hnd.
Qed.

Lemma language_tagger_single_words_witness :
  Forall (fun x => size x = 1) (py_slice_to (py_sorted c4_ms) 5) /\
  List.NoDup (map mstem (py_slice_to (py_sorted c4_ms) 5)).
Proof.
  apply (language_tagger_single_words (fun l => l) (fun s => s) ∅ (rater_new ∅ 1) (lit "ab. cd") 5).
  - intros l. reflexivity.
  - reflexivity.
  - apply (c4_tagger (fun l => l)).
Defined.

(** ** [extras.NaiveRater] *)

Lemma insert_sorted_tag_perm (x : Tag) (l : list Tag) :
  Permutation (insert_sorted_tag x l) (x :: l).
Proof.
  induction l as [|y l IH]; [reflexivity|].
  simpl. destruct (tag_lt x y); [reflexivity|].
  rewrite IH. apply perm_swap.
Qed.

Lemma py_sorted_tags_perm (l : list Tag) : Permutation (py_sorted_tags l) l.
Proof.
  unfold py_sorted_tags.
  assert (H : forall acc, Permutation (fold_left (fun acc x => insert_sorted_tag x acc) l acc)
                                      (l ++ acc)).
  { induction l as [|x l IH]; intros acc; [reflexivity|].
    simpl. rewrite IH, insert_sorted_tag_perm. symmetry. apply Permutation_middle. }
  rewrite H, app_nil_r. reflexivity.
Qed.

Definition tag_rating_ge (a b : Tag) : Prop := (rating b <= rating a)%R.

Lemma insert_sorted_tag_sorted (x : Tag) (l : list Tag) :
  Sorted tag_rating_ge l -> Sorted tag_rating_ge (insert_sorted_tag x l).
Proof.
  induction l as [|y l IH]; intros Hs; simpl.
  - repeat constructor.
  - destruct (tag_lt x y) eqn:E.
    + constructor; [exact Hs|]. constructor.
      unfold tag_lt in E. apply Rltb_iff in E. unfold tag_rating_ge. lra.
    + assert (Hyx : tag_rating_ge y x).
      { unfold tag_lt in E. unfold tag_rating_ge.
        destruct (Rlt_dec (rating y) (rating x)) as [Hlt|Hlt];
          [apply Rltb_iff in Hlt; congruence | lra]. }
      apply Sorted_inv in Hs as [Hs Hhd]. constructor; [apply IH, Hs|].
      destruct l as [|z l']; simpl.
      * constructor. exact Hyx.
      * destruct (tag_lt x z); constructor; [exact Hyx|].
        inversion Hhd; assumption.
Qed.

Lemma py_sorted_tags_sorted (l : list Tag) : Sorted tag_rating_ge (py_sorted_tags l).
Proof.
  unfold py_sorted_tags.
  assert (H : forall acc, Sorted tag_rating_ge acc ->
              Sorted tag_rating_ge (fold_left (fun acc x => insert_sorted_tag x acc) l acc)).
  { induction l as [|x l IH]; intros acc Hacc; simpl; [exact Hacc|].
    apply IH, insert_sorted_tag_sorted, Hacc. }
  apply H. constructor.
Qed.

Lemma tag_set_add_in (t x : Tag) (s : list Tag) : In x (tag_set_add t s) -> x = t \/ In x s.
Proof.
  induction s as [|u s IH]; cbn [tag_set_add]; [intros [<-|[]]; left; reflexivity|].
  destruct (str_eqb (stem u) (stem t)); [intros H; right; exact H|].
  intros [<-|H]; [right; left; reflexivity|]. destruct (IH H) as [->|H']; [left; reflexivity|].
  right; right; exact H'.
Qed.

Lemma tag_set_add_stems (t : Tag) (s : list Tag) :
  map stem (tag_set_add t s)
  = if existsb (fun u => str_eqb (stem u) (stem t)) s then map stem s else map stem s ++ [stem t].
Proof.
  induction s as [|u s IH]; [reflexivity|].
  cbn [tag_set_add existsb]. destruct (str_eqb (stem u) (stem t)); [reflexivity|].
  cbn [map orb]. rewrite IH. destruct (existsb _ s); reflexivity.
Qed.

Lemma str_eqb_refl (a : str) : str_eqb a a = true.
Proof. unfold str_eqb. apply bool_decide_eq_true. reflexivity. Qed.

Lemma str_eqb_true (a b : str) : str_eqb a b = true -> a = b.
Proof. unfold str_eqb. apply bool_decide_eq_true. Qed.

Lemma str_eqb_sym (a b : str) : str_eqb a b = str_eqb b a.
Proof. unfold str_eqb. apply bool_decide_ext. split; intros ->; reflexivity. Qed.

Lemma tag_set_add_spec (t : Tag) (s : list Tag) :
  (List.NoDup (map stem s) -> List.NoDup (map stem (tag_set_add t s))) /\
  In (stem t) (map stem (tag_set_add t s)) /\
  (forall y, In y (map stem s) -> In y (map stem (tag_set_add t s))).
Proof.
  rewrite tag_set_add_stems. destruct (existsb _ s) eqn:E.
  - split; [exact (fun H => H)|]. split; [|exact (fun y H => H)].
    apply existsb_exists in E. destruct E as (u & Hu & Eu). apply str_eqb_true in Eu.
    rewrite <- Eu. apply in_map, Hu.
  - split; [|split].
    + intros H. apply (Permutation_NoDup (Permutation_cons_append (map stem s) (stem t))).
      constructor; [|exact H]. intros Hin. apply in_map_iff in Hin. destruct Hin as (u & Eu & Hu).
      assert (Ht : existsb (fun u => str_eqb (stem u) (stem t)) s = true).
      { apply existsb_exists. exists u. split; [exact Hu|]. rewrite Eu. apply str_eqb_refl. }
      congruence.
    + apply in_or_app. right. left. reflexivity.
    + intros y Hy. apply in_or_app. left. exact Hy.
Qed.

Lemma tag_set_of_spec (l : list Tag) :
  (forall x, In x (tag_set_of l) -> In x l) /\
  List.NoDup (map stem (tag_set_of l)) /\
  (forall y, In y l -> In (stem y) (map stem (tag_set_of l))).
Proof.
  unfold tag_set_of.
  assert (H : forall acc,
    ((forall x, In x (fold_left (fun s t => tag_set_add t s) l acc) -> In x l \/ In x acc) /\
     (List.NoDup (map stem acc) -> List.NoDup (map stem (fold_left (fun s t => tag_set_add t s) l acc))) /\
     (forall y, In y (map stem acc) \/ (exists z, In z l /\ stem z = y) ->
                In y (map stem (fold_left (fun s t => tag_set_add t s) l acc))))).
  { induction l as [|t l IH]; intros acc; cbn [fold_left].
    - split; [intros x Hx; right; exact Hx|]. split; [exact (fun H => H)|].
      intros y [Hy|(z & [] & _)]. exact Hy.
    - destruct (IH (tag_set_add t acc)) as (H1 & H2 & H3).
      destruct (tag_set_add_spec t acc) as (A1 & A2 & A3). split; [|split].
      + intros x Hx. destruct (H1 x Hx) as [Hx'|Hx'];
          [left; right; exact Hx'|]. destruct (tag_set_add_in t x acc Hx') as [->|Hx''].
        * left; left; reflexivity.
        * right; exact Hx''.
      + intros Hnd. apply H2, A1, Hnd.
      + intros y [Hy|(z & [<-|Hz] & <-)].
        * apply H3. left. apply A3, Hy.
        * apply H3. left. exact A2.
        * apply H3. right. exists z. split; [exact Hz | reflexivity]. }
  destruct (H []) as (H1 & H2 & H3). split; [|split].
  - intros x Hx. destruct (H1 x Hx) as [Hx'|[]]. exact Hx'.
  - apply H2. constructor.
  - intros y Hy. apply H3. right. exists y. split; [exact Hy | reflexivity].
Qed.

Lemma naive_rater_unfold (so : list Tag -> list Tag) (r : Rater) (tags res : list Tag) :
  naive_rater_call so r tags = Some res ->
  exists ts, rate_tags r tags = Some ts /\
    res = py_sorted_tags (so (tag_set_of (List.filter (fun t => (1 <? length (string t))
                                                          && Rltb 0 (rating t)) ts))).
Proof.
  unfold naive_rater_call. destruct (rate_tags r tags) as [ts|]; cbn; [|discriminate].
  intros H. injection H as <-. exists ts. split; reflexivity.
Qed.

(** [NaiveRater.__call__]: its output is sorted by rating (non-increasing),
    has at most one tag per stem, and holds only rated input tags with a
    string of at least two characters and a positive rating. *)
Theorem naive_rater_output (so : list Tag -> list Tag) (r : Rater) (tags res : list Tag)
    (Hperm : forall l, Permutation (so l) l) :
  naive_rater_call so r tags = Some res ->
  exists ts, rate_tags r tags = Some ts /\
    Sorted tag_rating_ge res /\ List.NoDup (map stem res) /\
    (forall x, In x res -> In x ts /\ 1 < length (string x) /\ (0 < rating x)%R).
Proof.
  intros H. apply naive_rater_unfold in H. destruct H as (ts & Ets & ->).
  set (f := fun t => (1 <? length (string t)) && Rltb 0 (rating t)).
  destruct (tag_set_of_spec (List.filter f ts)) as (H1 & H2 & _).
  exists ts. split; [exact Ets|]. split; [apply py_sorted_tags_sorted|]. split.
  - apply (Permutation_NoDup (Permutation_map stem (Permutation_sym (py_sorted_tags_perm _)))).
    apply (Permutation_NoDup (Permutation_map stem (Permutation_sym (Hperm _)))). exact H2.
  - intros x Hx. apply (Permutation_in _ (py_sorted_tags_perm _)), (Permutation_in _ (Hperm _)), H1 in Hx.
    apply filter_In in Hx. destruct Hx as [Hx Hf]. unfold f in Hf. apply andb_prop in Hf.
    destruct Hf as [Hf1 Hf2]. split; [exact Hx|]. split; [apply Nat.ltb_lt, Hf1 | apply Rltb_iff, Hf2].
Qed.

(** [NaiveRater.__call__] loses no stem: every rated input tag with a
    string of at least two characters and a positive rating has its stem
    in the output. *)
Theorem naive_rater_complete (so : list Tag -> list Tag) (r : Rater) (tags ts res : list Tag)
    (Hperm : forall l, Permutation (so l) l) :
  naive_rater_call so r tags = Some res -> rate_tags r tags = Some ts ->
  forall y, In y ts -> 1 < length (string y) -> (0 < rating y)%R ->
  exists x, In x res /\ stem x = stem y.
Proof.
  intros H Ets y Hy Hl Hr. apply naive_rater_unfold in H. destruct H as (ts' & Ets' & ->).
  rewrite Ets in Ets'. injection Ets' as <-.
  set (f := fun t => (1 <? length (string t)) && Rltb 0 (rating t)).
  destruct (tag_set_of_spec (List.filter f ts)) as (_ & _ & H3).
  assert (Hin : In (stem y) (map stem (tag_set_of (List.filter f ts)))).
  { apply H3. apply filter_In. split; [exact Hy|]. unfold f.
    apply andb_true_intro. split; [apply Nat.ltb_lt, Hl | apply Rltb_iff, Hr]. }
  apply in_map_iff in Hin. destruct Hin as (x & Ex & Hx). exists x. split; [|exact Ex].
  apply (Permutation_in _ (Permutation_sym (py_sorted_tags_perm _))).
  apply (Permutation_in _ (Permutation_sym (Hperm _))). exact Hx.
Qed.

Lemma c4_naive : naive_rater_call (fun l => l) (rater_new ∅ 1) c4_tags = Some c4_rated.
Proof.
  unfold naive_rater_call. rewrite c4_rate. cbn [mbind option_bind]. f_equal.
  unfold c4_rated, c4_tags. cbn -[Rltb Rdiv]. rewrite !Rltb_true by lra. cbn -[Rltb Rdiv].
  match goal with |- context [str_eqb ?a ?b] => replace (str_eqb a b) with false by reflexivity end.
  cbn -[Rltb Rdiv]. unfold tag_lt. cbn [rating set_rating]. rewrite Rltb_false by lra. reflexivity.
Qed.

Lemma naive_rater_output_witness :
  exists ts, rate_tags (rater_new ∅ 1) c4_tags = Some ts /\
    Sorted tag_rating_ge c4_rated /\ List.NoDup (map stem c4_rated) /\
    (forall x, In x c4_rated -> In x ts /\ 1 < length (string x) /\ (0 < rating x)%R).
Proof.
  apply (naive_rater_output (fun l => l) (rater_new ∅ 1) c4_tags c4_rated);
    [intros l; reflexivity | apply c4_naive].
Defined.

Lemma naive_rater_complete_witness :
  exists x, In x c4_rated /\ stem x = stem (set_rating (1/2) (new_tag (lit "cd") None 1%R false true)).
Proof.
  apply (naive_rater_complete (fun l => l) (rater_new ∅ 1) c4_tags c4_rated c4_rated).
  - intros l. reflexivity.
  - apply c4_naive.
  - apply c4_rate.
  - right. left. reflexivity.
  - cbn. lia.
  - cbn [rating set_rating]. lra.
Defined.

(** ** The strings of the Rater's output *)

Lemma most_common_in (sn : str * nat) (c : list (str * nat)) :
  In (most_common (sn :: c)) (map fst (sn :: c)).
Proof.
  unfold most_common. assert (H : In sn (sn :: c)) by (left; reflexivity).
  assert (Hc : forall x, In x c -> In x (sn :: c)) by (intros x Hx; right; exact Hx).
  revert H Hc. generalize (sn :: c) as l. generalize sn as b.
  induction c as [|y c IH]; intros b l Hb Hc; [apply in_map, Hb|].
  cbn [fold_left]. apply IH.
  - destruct (snd b <? snd y); [apply Hc; left; reflexivity | exact Hb].
  - intros x Hx. apply Hc. right. exact Hx.
Qed.

Lemma str_counter_add_keys (s : str) (c : list (str * nat)) (s' : str) (n : nat) :
  In (s', n) (str_counter_add s c) -> s' = s \/ exists n', In (s', n') c.
Proof.
  induction c as [|[k m] c IH]; cbn [str_counter_add]; [intros [E|[]]; injection E as -> _; left; reflexivity|].
  destruct (str_eqb k s) eqn:E.
  - intros [Ek|Hin]; [injection Ek as -> _; right; exists m; left; reflexivity|].
    right. exists n. right. exact Hin.
  - intros [Ek|Hin]; [injection Ek as -> _; right; exists m; left; reflexivity|].
    destruct (IH Hin) as [->|(n' & Hn')]; [left; reflexivity|]. right. exists n'. right. exact Hn'.
Qed.

Lemma str_counter_add_nonempty (s : str) (c : list (str * nat)) : str_counter_add s c <> [].
Proof. destruct c as [|[k m] c]; cbn; [discriminate|]. destruct (str_eqb k s); discriminate. Qed.

Lemma cluster_lookup_add (key s k : str) (cl : list (str * list (str * nat))) :
  cluster_lookup (clusters_add key s cl) k
  = if str_eqb key k then str_counter_add s (cluster_lookup cl k) else cluster_lookup cl k.
Proof.
  unfold cluster_lookup. induction cl as [|[k0 c] cl IH]; cbn [clusters_add].
  - cbn [List.find fst]. destruct (str_eqb key k); reflexivity.
  - destruct (str_eqb k0 key) eqn:E0.
    + apply str_eqb_true in E0. subst k0. cbn [List.find fst].
      destruct (str_eqb key k); reflexivity.
    + cbn [List.find fst]. destruct (str_eqb k0 k) eqn:E1; [|exact IH].
      apply str_eqb_true in E1. subst k0. rewrite str_eqb_sym, E0. reflexivity.
Qed.

Lemma clusters_of_spec (ms : list MultiTag) :
  (forall k s n, In (s, n) (cluster_lookup (clusters_of ms) k) ->
     exists m, In m ms /\ mstem m = k /\ string (base m) = s) /\
  (forall m, In m ms -> cluster_lookup (clusters_of ms) (mstem m) <> []).
Proof.
  unfold clusters_of.
  assert (H : forall done cl,
    (forall k s n, In (s, n) (cluster_lookup cl k) ->
       exists m, In m done /\ mstem m = k /\ string (base m) = s) ->
    (forall m, In m done -> cluster_lookup cl (mstem m) <> []) ->
    (forall k s n, In (s, n) (cluster_lookup
        (fold_left (fun cl m => clusters_add (mstem m) (string (base m)) cl) ms cl) k) ->
       exists m, In m (done ++ ms) /\ mstem m = k /\ string (base m) = s) /\
    (forall m, In m (done ++ ms) -> cluster_lookup
        (fold_left (fun cl m => clusters_add (mstem m) (string (base m)) cl) ms cl) (mstem m) <> [])).
  { induction ms as [|m ms IH]; intros done cl H1 H2.
    - rewrite app_nil_r. split; assumption.
    - cbn [fold_left]. replace (done ++ m :: ms) with ((done ++ [m]) ++ ms) by (rewrite <- app_assoc; reflexivity).
      apply IH.
      + intros k s n Hin. rewrite cluster_lookup_add in Hin.
        destruct (str_eqb (mstem m) k) eqn:E.
        * apply str_counter_add_keys in Hin. destruct Hin as [->|(n' & Hn')].
          -- exists m. apply str_eqb_true in E.
             split; [apply in_or_app; right; left; reflexivity | split; [exact E | reflexivity]].
          -- destruct (H1 k s n' Hn') as (m' & Hm' & Hk & Hs).
             exists m'. split; [apply in_or_app; left; exact Hm' | split; assumption].
        * destruct (H1 k s n Hin) as (m' & Hm' & Hk & Hs).
          exists m'. split; [apply in_or_app; left; exact Hm' | split; assumption].
      + intros m' Hm'. rewrite cluster_lookup_add.
        destruct (str_eqb (mstem m) (mstem m')) eqn:E; [apply str_counter_add_nonempty|].
        apply in_app_or in Hm'. destruct Hm' as [Hm'|[<-|[]]]; [apply H2, Hm'|].
        rewrite str_eqb_refl in E. discriminate. }
  destruct (H [] [] ) as [H1 H2].
  - intros k s n Hin. destruct Hin.
  - intros m [].
  - split; assumption.
Qed.

Lemma canonicalize_strings (ms : list MultiTag) (tc0 tc : list (MultiTag * nat)) :
  canonicalize ms tc0 = Some tc ->
  Forall2 (fun x y => string (base (fst y)) = most_common (cluster_lookup (clusters_of ms) (mstem (fst x))))
          tc0 tc.
Proof.
  intros H. apply mapM_Some_1 in H. eapply Forall2_impl; [exact H|].
  intros [t0 c0] [t c] Hxy. cbv beta iota zeta in Hxy.
  destruct (py_div_nat _ _); simpl in Hxy; [|discriminate].
  destruct (Qle_bool _ _); injection Hxy as <- <-; reflexivity.
Qed.

Lemma rate_tags_strings (r : Rater) (tags ts : list Tag) :
  rate_tags r tags = Some ts -> map string ts = map string tags.
Proof.
  intros H. apply mapM_Some_1 in H. apply Forall2_map_eq. eapply Forall2_impl; [exact H|].
  intros x y Hxy. cbv beta in Hxy.
  destruct (py_div_int _ _); simpl in Hxy; [|discriminate].
  injection Hxy as <-. reflexivity.
Qed.

Lemma rater_output_runs (set_order : list MultiTag -> list MultiTag) (r : Rater)
    (tags : list Tag) (res : list MultiTag)
    (Hperm : forall l, Permutation (set_order l) l) :
  rater_call set_order r tags = Some res ->
  forall x, In x res -> exists i n, 1 <= n /\ i + n <= length tags /\
    string (base x) = join_space (map string (segment tags i n)).
Proof.
  intros H x Hx. destruct (rater_output_origin set_order r tags res Hperm H)
    as (ts & tc & Ets & Hc & _ & Horig).
  destruct (Horig x Hx) as (cnt & Hk & _).
  set (ms := create_multitags r ts) in *.
  destruct (Forall2_in_r _ _ _ _ (canonicalize_strings _ _ _ Hc) Hk) as ([t c0] & Ht & Hs).
  cbn [fst] in Hs.
  destruct (term_count_of_spec ms) as (_ & Hkeys & _).
  destruct (clusters_of_spec ms) as [Hcl Hne].
  assert (Htm := Hkeys t c0 Ht). specialize (Hne t Htm).
  destruct (cluster_lookup (clusters_of ms) (mstem t)) as [|sn c] eqn:Ec; [congruence|].
  pose proof (most_common_in sn c) as Hmc. rewrite <- Hs in Hmc.
  apply in_map_iff in Hmc. destruct Hmc as ([s n] & Es & Hsn). cbn [fst] in Es. subst s.
  rewrite <- Ec in Hsn. destruct (Hcl _ _ _ Hsn) as (m & Hm & _ & Hms).
  apply create_multitags_spec in Hm. destruct Hm as (i & n' & Hn & Hi & _ & Em & _).
  assert (Hlen : length ts = length tags)
    by (rewrite <- (length_map string ts), <- (length_map string tags), (rate_tags_strings r tags ts Ets); reflexivity).
  exists i, n'. split; [exact Hn|]. split; [lia|].
  rewrite <- Hms, Em.
  assert (Hseg : map string (segment ts i n') = map string (segment tags i n')).
  { unfold segment. rewrite <- !List.firstn_map, <- !List.skipn_map, (rate_tags_strings r tags ts Ets).
    reflexivity. }
  assert (Hl := length_segment ts i n' Hi).
  destruct (segment ts i n') as [|u us] eqn:Es; [cbn in Hl; lia|].
  destruct (build_chain_fields u us) as (Hstr & _). cbv zeta in Hstr. rewrite Hstr, Hseg. reflexivity.
Qed.

(** [Rater.__call__] invents no text: the string of every multitag it
    returns is the space-join of the strings of a run of consecutive input
    tags. *)
Theorem rater_output_strings (set_order : list MultiTag -> list MultiTag) (r : Rater)
    (tags : list Tag) (res : list MultiTag)
    (Hperm : forall l, Permutation (set_order l) l) :
  rater_call set_order r tags = Some res ->
  forall x, In x res -> exists i n, 1 <= n /\ i + n <= length tags /\
    string (base x) = join_space (map string (segment tags i n)).
Proof. exact (rater_output_runs set_order r tags res Hperm). Qed.

Lemma rater_output_strings_witness :
  Forall (fun x => exists i n, 1 <= n /\ i + n <= length c4_tags /\
    string (base x) = join_space (map string (segment c4_tags i n))) (py_sorted c4_ms).
Proof.
  apply List.Forall_forall.
  apply (rater_output_strings (fun l => l) (rater_new ∅ 1) c4_tags);
    [intros l; reflexivity | apply c4_run_order].
Defined.

Lemma reader_tags_nonempty_witness :
  string (new_tag (lit "ab") None 1%R false false) <> [] /\
  stem (new_tag (lit "ab") None 1%R false false) = string (new_tag (lit "ab") None 1%R false false).
Proof. apply (reader_tags_nonempty (lit "Ab cd")). left. reflexivity. Defined.


(** [MultiTag.combined_rating] stays in [0, 1] when every subrating does,
    for a multitag of at least one component and either proper flag. *)
Theorem combined_rating_in_unit (m : MultiTag) :
  1 <= size m ->
  Forall (fun x => (0 <= x <= 1)%R) (subratings m) -> (0 <= combined_rating m <= 1)%R.
Proof. intros _. apply combined_rating_unit. Qed.

Lemma combined_rating_in_unit_witness :
  (0 <= combined_rating {| base := new_tag (lit "new york") None 0%R true true;
                           size := 2; subratings := [0%R; (1/5)%R] |} <= 1)%R.
Proof.
  apply combined_rating_in_unit; cbn [size subratings]; [lia|].
  repeat constructor; lra.
Defined.
